(** * Bagua: communicator topology, collectives, the fused-optimizer grouper
      and the launcher

    A shallow embedding of [bagua/torch_api/communication.py],
    [bagua/torch_api/fuse_optimizer.py] and [bagua/distributed/launch.py],
    with the properties stated about them.

    Python integers are unbounded and are modelled as [Z]; [//] and [%] are
    floor division and its remainder, which is what [Z.div] and [Z.modulo]
    compute for a non-zero divisor (a zero divisor raises
    [ZeroDivisionError] and is guarded explicitly).  Exceptions are values of
    [exn]; a computation that raises, returns or blocks on the rendezvous
    store is a [result]. *)

From stdpp Require Import base list sorting strings pretty gmap.
From Stdlib Require Import ZArith QArith Lia.
Close Scope Q_scope.

(** ** Exceptions and results *)

(** The exceptions the embedded code can raise.  [RuntimeError] is what
    torch raises from an in-place operation whose result the tensor cannot
    hold.  [DistNotInitialized] is what [torch.distributed] raises when it is
    asked for the default process group before it has been initialized (a
    [RuntimeError] or a [ValueError], by the release of torch).
    [TransportError] is a failure reported by the transport library
    [bagua_core], which is outside the sources; the name is the one the
    specification gives to failures of the transport.  [DanglingReference]
    is the model's answer to a tensor reference that denotes no tensor, or a
    tensor that lies outside its storage (no Python program can write one).
    The last three are the error names that appear only in the
    specification's taxonomy (no class of that name is defined, imported or
    raised by the embedded modules). *)
Inductive exn : Type :=
| AssertionError (msg : string)
| AttributeError
| ZeroDivisionError
| RepeatedInitializationError
| RuntimeError
| DistNotInitialized
| TransportError
| DanglingReference
| InvalidDeviceError
| NotInitializedError
| ConfigurationError.

(** [Blocked key]: the process is waiting inside [store.get(key)] for a key
    nobody has published yet. *)
Inductive result (A : Type) : Type :=
| Ok (a : A)
| Raise (e : exn)
| Blocked (key : string).
Arguments Ok {A} a.
Arguments Raise {A} e.
Arguments Blocked {A} key.

Definition rbind {A B : Type} (m : result A) (f : A -> result B) : result B :=
  match m with
  | Ok a => f a
  | Raise e => Raise e
  | Blocked k => Blocked k
  end.

Declare Scope result_scope.
Delimit Scope result_scope with result.
Notation "'do' x <- m ; f" := (rbind m (fun x => f))
  (at level 10, x name, m at level 100, f at level 200) : result_scope.

(** Calling [f] on each element in order, stopping at the first failure. *)
Fixpoint mapM {A B : Type} (f : A -> result B) (l : list A) : result (list B) :=
  match l with
  | [] => Ok []
  | x :: l' =>
      (do y <- f x;
       do ys <- mapM f l';
       Ok (y :: ys))%result
  end.

(** Two computations fail, and in the same way. *)
Definition same_failure {X Y : Type} (r : result X) (r' : result Y) : Prop :=
  match r, r' with
  | Raise e, Raise e' => e = e'
  | Blocked k, Blocked k' => k = k'
  | _, _ => False
  end.

(** ** Python built-ins used by the grouper *)

(** [sorted(l, key=key)]: Python's sort is stable, so the result is the
    unique ascending arrangement of [l] that keeps elements of equal key in
    their input order.  Insertion from the right, placing an element before
    the first element whose key is not smaller, computes exactly that. *)
Section Sorted.
Context {A : Type} (key : A -> Z).

Fixpoint insert_by (x : A) (l : list A) : list A :=
  match l with
  | [] => [x]
  | y :: l' => if (key x <=? key y)%Z then x :: y :: l' else y :: insert_by x l'
  end.

Fixpoint py_sorted (l : list A) : list A :=
  match l with
  | [] => []
  | x :: l' => insert_by x (py_sorted l')
  end.
End Sorted.

(** [s] is [l] sorted by [key], ascending and stable. *)
Definition stable_sort_of {T : Type} (key : T -> Z) (l s : list T) : Prop :=
  Permutation s l /\
  StronglySorted (fun x y => (key x <= key y)%Z) s /\
  forall k, filter (fun x => key x = k) s = filter (fun x => key x = k) l.

(** A [dict] keeps its keys in insertion order; assigning to a key that is
    already present keeps the key's position. *)
Section Dict.
Context {V : Type}.

Definition dict : Type := list (Z * V).

Fixpoint dict_get (d : dict) (k : Z) (default : V) : V :=
  match d with
  | [] => default
  | (k', v) :: d' => if (k' =? k)%Z then v else dict_get d' k default
  end.

Fixpoint dict_setitem (d : dict) (k : Z) (v : V) : dict :=
  match d with
  | [] => [(k, v)]
  | (k', v') :: d' =>
      if (k' =? k)%Z then (k, v) :: d' else (k', v') :: dict_setitem d' k v
  end.

Definition dict_keys (d : dict) : list Z := map fst d.
Definition dict_values (d : dict) : list V := map snd d.
End Dict.
Arguments dict V : clear implicits.

(** ** fuse_optimizer.py *)

Module Fuse.
Local Open Scope Z_scope.

(** What the grouper reads of a parameter tensor: the identity of the
    storage behind [p.data], the offset of [p.data] in it, [p.numel()],
    [p.bagua_tensor.num_elem_allocated()] when the attribute exists, and
    the storage offset of [p.grad.data] ([None] when [p.grad] is [None]). *)
Record Param : Type := mkParam {
    storage_ptr : Z;
    storage_offset : Z;
    numel : Z;
    bagua_tensor : option Z;
    grad : option Z
  }.

Definition allocate_size (p : Param) : Z :=
  match bagua_tensor p with
  | Some n => n
  | None => numel p
  end.

(** [p.grad.data.storage_offset()]; [None.data] raises. *)
Definition grad_storage_offset (p : Param) : result Z :=
  match grad p with
  | Some o => Ok o
  | None => Raise AttributeError
  end.

(** [x == y + n and gx == gy + n], the gradient offsets being read only
    when the data offsets match. *)
Definition follows (x y : Param) (n : Z) : result bool :=
  if storage_offset x =? storage_offset y + n then
    (do gx <- grad_storage_offset x;
     do gy <- grad_storage_offset y;
     Ok (gx =? gy + n))%result
  else Ok false.

Definition is_contiguous_param (a b : Param) : result bool :=
  let allocate_size_a := allocate_size a in
  let allocate_size_b := allocate_size b in
  (do fwd <- follows a b allocate_size_b;
   if fwd : bool then Ok true else follows b a allocate_size_a)%result.

Section Reorder.
(** [collocate_params] lives in [bagua/torch_api/utils.py]; it collapses
    a run into one parameter and may raise. *)
Context {G : Type} (collocate_params : list Param -> result G).

(** The loop of [reorder_params] over the sorted parameters, with the
    two accumulators [grouped] and [tmp_params]. *)
Fixpoint reorder_loop (sorted_params : list Param)
    (grouped : list G) (tmp_params : list Param) : result (list G) :=
  match sorted_params with
  | [] =>
      match tmp_params with
      | [] => Ok grouped
      | _ :: _ =>
          (do g <- collocate_params tmp_params;
           Ok (grouped ++ [g]))%result
      end
  | p :: rest =>
      match last tmp_params with
      | None => reorder_loop rest grouped (tmp_params ++ [p])
      | Some q =>
          (do c <- is_contiguous_param p q;
           if negb c then
             do g <- collocate_params tmp_params;
             reorder_loop rest (grouped ++ [g]) ([] ++ [p])
           else reorder_loop rest grouped (tmp_params ++ [p]))%result
      end
  end.

Definition reorder_params (params : list Param) : result (list G) :=
  let sorted_params := py_sorted storage_offset params in
  reorder_loop sorted_params [] [].
End Reorder.

(** The runs themselves: [reorder_params] with the collapsing step left
    out. *)
Definition param_runs (params : list Param) : result (list (list Param)) :=
  reorder_params Ok params.

Definition group_params_by_storage (params : list Param) : dict (list Param) :=
  fold_left
    (fun grouped_params p =>
       let weight_storage := storage_ptr p in
       let l := dict_get grouped_params weight_storage [] in
       let l := l ++ [p] in
       dict_setitem grouped_params weight_storage l)
    params [].

(** An optimizer parameter group: [group["params"]] and the other entries
    of the dictionary, which [step] does not touch. *)
Record ParamGroup (O : Type) : Type := mkGroup {
    params : list Param;
    options : O
  }.
Arguments mkGroup {O} params options.
Arguments params {O} p.
Arguments options {O} p.

Section Step.
Context {O : Type} (collocate_params : list Param -> result Param).

(** The body of the loop of [FusedOptimizer.step] for one group: the new
    value of [group["params"]]. *)
Definition fuse_group (ps : list Param) : result (list Param) :=
  let grouped_params := group_params_by_storage ps in
  fold_left
    (fun acc group_p =>
       (do fused_params <- acc;
        do r <- reorder_params collocate_params group_p;
        Ok (fused_params ++ r))%result)
    (dict_values grouped_params) (Ok []).

(** [FusedOptimizer.step] up to the call of the wrapped optimizer's own
    [step]: the groups are updated one after the other, and a failure
    leaves the groups already rewritten in place. *)
Fixpoint step_groups (groups : list (ParamGroup O))
    : list (ParamGroup O) * result unit :=
  match groups with
  | [] => ([], Ok tt)
  | g :: rest =>
      match fuse_group (params g) with
      | Ok fused_params =>
          let '(rest', r) := step_groups rest in
          (mkGroup fused_params (options g) :: rest', r)
      | Raise e => (g :: rest, Raise e)
      | Blocked k => (g :: rest, Blocked k)
      end
  end.
End Step.

(** *** Vocabulary of the statements about the grouper *)

Definition has_grad (p : Param) : Prop := is_Some (grad p).

(** [y] starts where [x] ends, for the data and for the gradient: the offset
    of [y] is the offset of [x] plus the allocated element count of [x]. *)
Definition contiguous_after (x y : Param) : Prop :=
  storage_offset y = storage_offset x + allocate_size x /\
  exists gx gy, grad x = Some gx /\ grad y = Some gy /\ gy = gx + allocate_size x.

Definition contiguous_afterb (x y : Param) : bool :=
  match grad x, grad y with
  | Some gx, Some gy =>
      (storage_offset y =? storage_offset x + allocate_size x) &&
      (gy =? gx + allocate_size x)
  | _, _ => false
  end.

(** The test of [is_contiguous_param] is symmetric: either parameter may
    follow the other. *)
Definition mergeable (x y : Param) : Prop :=
  contiguous_after x y \/ contiguous_after y x.

Definition mergeableb (x y : Param) : bool :=
  contiguous_afterb x y || contiguous_afterb y x.

(** Every two neighbours of [l] are related. *)
Fixpoint chain (R : Param -> Param -> Prop) (l : list Param) : Prop :=
  match l with
  | x :: (y :: _) as l' => R x y /\ chain R l'
  | _ => True
  end.

(** No run can be extended by the first element of the next one. *)
Fixpoint separated (R : Param -> Param -> Prop) (runs : list (list Param)) : Prop :=
  match runs with
  | r1 :: (r2 :: _) as runs' =>
      (forall x y, last r1 = Some x -> head r2 = Some y -> ~ R x y) /\
      separated R runs'
  | _ => True
  end.

(** [runs] cuts [l] into its maximal runs of [R]-related neighbours. *)
Definition maximal_runs (R : Param -> Param -> Prop)
    (l : list Param) (runs : list (list Param)) : Prop :=
  concat runs = l /\
  Forall (fun r => r <> []) runs /\
  Forall (chain R) runs /\
  separated R runs.

(** The cut of [cur ++ l] into runs, [cur] being the run under
    construction. *)
Fixpoint split_runs (R : Param -> Param -> bool)
    (cur l : list Param) : list (list Param) :=
  match l with
  | [] => match cur with [] => [] | _ :: _ => [cur] end
  | p :: rest =>
      match last cur with
      | None => split_runs R (cur ++ [p]) rest
      | Some q =>
          if R q p then split_runs R (cur ++ [p]) rest
          else cur :: split_runs R [p] rest
      end
  end.

(** The distinct elements of [l], each at the place of its first
    occurrence. *)
Fixpoint first_occurrences (l : list Z) : list Z :=
  match l with
  | [] => []
  | k :: l' => k :: filter (fun k' => k' <> k) (first_occurrences l')
  end.

(** One bucket per distinct storage pointer, in order of first encounter,
    holding the parameters of that storage in their input order. *)
Definition buckets_of (ps : list Param) : dict (list Param) :=
  map (fun k => (k, filter (fun p => storage_ptr p = k) ps))
      (first_occurrences (map storage_ptr ps)).

(** The data buffers of two parameters touch, in either order: the first
    operand of each [and] in [is_contiguous_param]. *)
Definition data_adjacent (a b : Param) : bool :=
  (storage_offset a =? storage_offset b + allocate_size b) ||
  (storage_offset b =? storage_offset a + allocate_size a).

(** Some two neighbours of [l] have touching data buffers. *)
Fixpoint has_adjacent_neighbours (l : list Param) : bool :=
  match l with
  | x :: (y :: _) as l' => data_adjacent y x || has_adjacent_neighbours l'
  | _ => false
  end.

(** The parameters of the specification's example, in one allocation. *)
Definition A : Param := mkParam 7 0 10 None (Some 0).
Definition B : Param := mkParam 7 10 10 None (Some 10).
Definition C : Param := mkParam 7 30 5 None (Some 30).

(** An empty parameter placed at the offset where [A] starts. *)
Definition E : Param := mkParam 7 0 0 None (Some 0).

(** Two parameters with touching data buffers and no gradient. *)
Definition A0 : Param := mkParam 7 0 10 None None.
Definition B0 : Param := mkParam 7 10 10 None None.

(** A stand-in for [collocate_params] in examples: the first parameter of
    the run. *)
Definition first_of_run (run : list Param) : result Param :=
  Ok (default A (head run)).

End Fuse.

(** ** communication.py *)

Module Comm.
Local Open Scope Z_scope.

(** The values [bagua.torch_api.env] reads from the process environment. *)
Record Env : Type := mkEnv {
  RANK : Z;
  WORLD_SIZE : Z;
  LOCAL_RANK : Z;
  LOCAL_SIZE : Z;
  MASTER_ADDR : string;
  BAGUA_SERVICE_PORT : Z;
  BAGUA_DEFAULT_BUCKET_SIZE : Z
}.

(** [torch.cuda.Stream(priority=...)]. *)
Record Stream : Type := mkStream { priority : Z }.

(** [B.BaguaSingleCommunicatorPy]: the arguments it was built from and the
    [cuda_stream] attribute set on it afterwards. *)
Record Communicator : Type := mkComm {
  rank : Z;
  nranks : Z;
  device_id : Z;
  stream_ptr : Stream;
  nccl_unique_id_str : string;
  cuda_stream : Stream
}.

(** [B.BaguaCommBackendPy(schedule_channel_cap, device_id=...)]. *)
Record Backend : Type := mkBackend {
  schedule_channel_cap : Z;
  backend_device_id : Z
}.

(** [BaguaHyperparameter()] of [bagua/bagua_define.py], of which only the
    default value is built here. *)
Inductive BaguaHyperparameter : Type := DefaultHyperparameter.

(** [AutotuneClient(addr, port)]. *)
Record AutotuneClient : Type := mkClient {
  client_addr : string;
  client_port : Z
}.

(** The daemon process started on rank 0 for the autotune service. *)
Record AutotuneServer : Type := mkServer {
  server_world_size : Z;
  server_default_bucket_size : Z;
  server_host : string;
  server_port : Z
}.

(** A handle on the rendezvous store of the job. *)
Inductive StoreRef : Type := DefaultStore.

Record BaguaGlobalState : Type := mkGlobalState {
  backend : Backend;
  stream : Stream;
  store : option StoreRef;
  hyperparameters : BaguaHyperparameter;
  hyperparameters_service_client : AutotuneClient;
  internode_communicator : option Communicator;
  intranode_communicator : Communicator;
  global_communicator : Communicator
}.

Inductive Device : Type := Cpu | Cuda (index : Z).

#[global] Instance Device_eq_dec : EqDecision Device.
Proof. solve_decision. Defined.

Definition is_cpu (d : Device) : bool :=
  match d with Cpu => true | Cuda _ => false end.

(** A tensor as the collectives see it (they describe it to the transport
    by [data_ptr()] and [numel()]): a dense run of [numel] elements of a
    storage, starting at [storage_offset].  Tensors on one storage share its
    elements, as the parameters of a flattened module do. *)
Record Tensor : Type := mkTensor {
  device : Device;
  storage : nat;
  storage_offset : nat;
  numel : nat
}.

(** [a % b] and [a // b] on Python integers. *)
Definition py_mod (a b : Z) : result Z :=
  if b =? 0 then Raise ZeroDivisionError else Ok (a mod b).

Definition py_floordiv (a b : Z) : result Z :=
  if b =? 0 then Raise ZeroDivisionError else Ok (a / b).

(** [f"{comm_type}-{root}-unique_id"]. *)
Definition unique_id_key (comm_type : string) (root : Z) : string :=
  comm_type +:+ "-" +:+ pretty root +:+ "-unique_id".

(** Modelled from the spec: the communicators the constructor of
    [bagua_core] builds, "[rank] (position within this scope, >= 0),
    [world_size] (>= 1, rank < world_size)".  What the library does with
    other arguments the specification does not say; this instance refuses
    them with the transport's error. *)
Definition spec_comm_new (c : Communicator) : option exn :=
  if (0 <=? rank c) && (rank c <? nranks c) then None else Some TransportError.

Section Process.
(** The element type of tensors is left abstract, and so is [x / n] on it.
    [floating] tells whether it is a floating-point or complex type: torch
    refuses true division in place on the other (integer and boolean)
    types. *)
Context {elem : Type} (floating : bool) (true_divide : elem -> Z -> elem).

(** The elements [off .. off + n - 1] of a storage. *)
Definition region (s : list elem) (off n : nat) : option (list elem) :=
  if decide (off + n <= length s)%nat then Some (take n (drop off s)) else None.

(** The storage with [d] written over the elements from [off] on. *)
Definition splice (s : list elem) (off : nat) (d : list elem) : list elem :=
  take off s ++ d ++ drop (off + length d) s.

(** The elements of a tensor, and the storages after its elements have been
    overwritten. *)
Definition contents_in (ss : gmap nat (list elem)) (v : Tensor)
    : option (list elem) :=
  match ss !! storage v with
  | Some s => region s (storage_offset v) (numel v)
  | None => None
  end.

Definition store_in (ss : gmap nat (list elem)) (v : Tensor) (d : list elem)
    : gmap nat (list elem) :=
  match ss !! storage v with
  | Some s => <[storage v := splice s (storage_offset v) d]> ss
  | None => ss
  end.

(** What the transport does to the region a process hands to a collective:
    the contents of the region after the call, from its contents before. *)
Record Wire : Type := mkWire {
  wire_allreduce : list elem -> list elem;
  wire_broadcast : Z -> list elem -> list elem
}.

(** What a process does that other processes, the device or the transport
    can observe.  [EvCommInit c]: the constructor of the transport library
    is called for the communicator [c]. *)
Inductive event : Type :=
| EvDistInit (backend_name init_method : string)
| EvGenerateId (idstr : string)
| EvStoreSet (key value : string)
| EvStoreGet (key : string)
| EvCommInit (c : Communicator)
| EvRecordEvent
| EvWaitEvent (s : Stream)
| EvBroadcast (c : Communicator) (root : Z) (buf : list elem)
| EvAllreduce (c : Communicator) (buf : list elem)
| EvSynchronize.

(** One process: its environment, the two module globals, the state of
    [torch.distributed], the contents of the rendezvous store (shared with
    the other processes), the tensors it holds (by reference) and the
    storages they lie in, the identifiers the transport library will
    generate for it, the answer of the library's constructor (the error it
    raises, if any), its connection to the other ranks and what it has done
    so far. *)
Record Process : Type := mkProcess {
  env : Env;
  _global_state : option BaguaGlobalState;
  _autotune_server : option AutotuneServer;
  dist_initialized : bool;
  default_store : gmap string string;
  tensors : gmap nat Tensor;
  storages : gmap nat (list elem);
  unique_ids : nat -> string;
  generated : nat;
  comm_new : Communicator -> option exn;
  wire : Wire;
  trace : list event
}.

Definition with_global_state (v : option BaguaGlobalState) (p : Process) : Process :=
  mkProcess (env p) v (_autotune_server p) (dist_initialized p)
    (default_store p) (tensors p) (storages p) (unique_ids p) (generated p)
    (comm_new p) (wire p) (trace p).

Definition with_autotune_server (v : option AutotuneServer) (p : Process) : Process :=
  mkProcess (env p) (_global_state p) v (dist_initialized p)
    (default_store p) (tensors p) (storages p) (unique_ids p) (generated p)
    (comm_new p) (wire p) (trace p).

Definition with_dist_initialized (v : bool) (p : Process) : Process :=
  mkProcess (env p) (_global_state p) (_autotune_server p) v
    (default_store p) (tensors p) (storages p) (unique_ids p) (generated p)
    (comm_new p) (wire p) (trace p).

Definition with_default_store (v : gmap string string) (p : Process) : Process :=
  mkProcess (env p) (_global_state p) (_autotune_server p) (dist_initialized p)
    v (tensors p) (storages p) (unique_ids p) (generated p)
    (comm_new p) (wire p) (trace p).

Definition with_tensors (v : gmap nat Tensor) (p : Process) : Process :=
  mkProcess (env p) (_global_state p) (_autotune_server p) (dist_initialized p)
    (default_store p) v (storages p) (unique_ids p) (generated p)
    (comm_new p) (wire p) (trace p).

Definition with_storages (v : gmap nat (list elem)) (p : Process) : Process :=
  mkProcess (env p) (_global_state p) (_autotune_server p) (dist_initialized p)
    (default_store p) (tensors p) v (unique_ids p) (generated p)
    (comm_new p) (wire p) (trace p).

Definition with_generated (v : nat) (p : Process) : Process :=
  mkProcess (env p) (_global_state p) (_autotune_server p) (dist_initialized p)
    (default_store p) (tensors p) (storages p) (unique_ids p) v
    (comm_new p) (wire p) (trace p).

Definition with_wire (v : Wire) (p : Process) : Process :=
  mkProcess (env p) (_global_state p) (_autotune_server p) (dist_initialized p)
    (default_store p) (tensors p) (storages p) (unique_ids p) (generated p)
    (comm_new p) v (trace p).

Definition with_trace (v : list event) (p : Process) : Process :=
  mkProcess (env p) (_global_state p) (_autotune_server p) (dist_initialized p)
    (default_store p) (tensors p) (storages p) (unique_ids p) (generated p)
    (comm_new p) (wire p) v.

(** *** The monad of process actions *)

Definition M (X : Type) : Type := Process -> Process * result X.

Definition ret {X : Type} (x : X) : M X := fun p => (p, Ok x).

Definition bind {X Y : Type} (m : M X) (f : X -> M Y) : M Y :=
  fun p =>
    match m p with
    | (p', Ok x) => f x p'
    | (p', Raise e) => (p', Raise e)
    | (p', Blocked k) => (p', Blocked k)
    end.

Definition raise {X : Type} (e : exn) : M X := fun p => (p, Raise e).

Definition lift {X : Type} (r : result X) : M X := fun p => (p, r).

Definition gets {X : Type} (f : Process -> X) : M X := fun p => (p, Ok (f p)).

Definition modify (f : Process -> Process) : M unit := fun p => (f p, Ok tt).

Definition emit (e : event) : M unit :=
  modify (fun p => with_trace (trace p ++ [e]) p).

Declare Scope proc_scope.
Delimit Scope proc_scope with proc.
Notation "'do' x <- m ; f" := (bind m (fun x => f))
  (at level 10, x name, m at level 100, f at level 200) : proc_scope.
Local Open Scope proc_scope.

(** [assert cond, msg]. *)
Definition assert_ (cond : bool) (msg : string) : M unit :=
  if cond then ret tt else raise (AssertionError msg).

(** [for x in l: body(x)]. *)
Fixpoint for_each {X : Type} (l : list X) (body : X -> M unit) : M unit :=
  match l with
  | [] => ret tt
  | x :: l' => do _ <- body x; for_each l' body
  end.

(** *** [bagua.torch_api.env] *)

Definition get_rank : M Z := gets (fun p => RANK (env p)).
Definition get_world_size : M Z := gets (fun p => WORLD_SIZE (env p)).
Definition get_local_rank : M Z := gets (fun p => LOCAL_RANK (env p)).
Definition get_local_size : M Z := gets (fun p => LOCAL_SIZE (env p)).
Definition get_master_addr : M string := gets (fun p => MASTER_ADDR (env p)).
Definition get_bagua_service_port : M Z :=
  gets (fun p => BAGUA_SERVICE_PORT (env p)).
Definition get_default_bucket_size : M Z :=
  gets (fun p => BAGUA_DEFAULT_BUCKET_SIZE (env p)).

(** *** [torch.distributed] *)

(** [c10d._get_default_store()]: the store of the default process group,
    which exists once [torch.distributed] has been initialized. *)
Definition _get_default_store : M StoreRef :=
  do initialized <- gets dist_initialized;
  if initialized : bool then ret DefaultStore else raise DistNotInitialized.

(** [dist.get_rank()]: the rank in the default process group, which with
    the [env://] method is the one of the environment. *)
Definition dist_get_rank : M Z :=
  do initialized <- gets dist_initialized;
  if initialized : bool then get_rank else raise DistNotInitialized.

(** *** The rendezvous store *)

(** [store.set(key, value)]. *)
Definition store_set (key value : string) : M unit :=
  do _ <- emit (EvStoreSet key value);
  modify (fun p => with_default_store (<[key := value]> (default_store p)) p).

(** [store.get(key)] waits until the key has been published. *)
Definition store_get (key : string) : M string :=
  do _ <- emit (EvStoreGet key);
  do s <- gets default_store;
  match s !! key with
  | Some value => ret value
  | None => fun p => (p, Blocked key)
  end.

(** [B.BaguaSingleCommunicatorPy.generate_nccl_unique_id_str()]. *)
Definition generate_nccl_unique_id_str : M string :=
  do n <- gets generated;
  do ids <- gets unique_ids;
  do _ <- modify (with_generated (S n));
  do _ <- emit (EvGenerateId (ids n));
  ret (ids n).

(** *** Module globals *)

Definition _get_global_state : M (option BaguaGlobalState) :=
  gets _global_state.

Definition is_initialized : M bool :=
  gets (fun p => bool_decide (is_Some (_global_state p))).

(** Attribute access or method call on the value of [_global_state], which
    is [None] before initialization. *)
Definition getattr {X : Type} (o : option BaguaGlobalState)
    (field : BaguaGlobalState -> X) : M X :=
  match o with
  | Some gs => ret (field gs)
  | None => raise AttributeError
  end.

Definition get_bagua_hyperparameters : M BaguaHyperparameter :=
  do gs <- gets _global_state;
  getattr gs hyperparameters.

Definition get_hyperparameters_service_client : M AutotuneClient :=
  do gs <- gets _global_state;
  getattr gs hyperparameters_service_client.

(** *** Communicators *)

Definition gen_nccl_unique_id (comm_type : string) (root : Z)
    (store : option StoreRef) : M string :=
  let key := unique_id_key comm_type root in
  do store <- match store with
              | None => _get_default_store
              | Some s => ret s
              end;
  do r <- get_rank;
  if r =? root then
    do idstr <- generate_nccl_unique_id_str;
    do _ <- store_set key idstr;
    ret idstr
  else
    do idstr <- store_get key;
    ret idstr.

(** Modelled from the spec: the constructor of [bagua_core], which is
    outside the sources, called as the source calls it and followed by
    [comm.cuda_stream = stream].  For the spec a communicator has a "[rank]
    (position within this scope, >= 0)" and a "[world_size] (>= 1, rank <
    world_size)"; whether the library builds the communicator it is asked
    for, or raises, is the answer [comm_new] of the process, of which
    [spec_comm_new] is the instance that follows the spec. *)
Definition BaguaSingleCommunicatorPy (rank nranks device_id : Z)
    (stream : Stream) (nccl_unique_id_str : string) : M Communicator :=
  let comm := mkComm rank nranks device_id stream nccl_unique_id_str stream in
  do _ <- emit (EvCommInit comm);
  do refusal <- gets (fun p => comm_new p comm);
  match refusal with
  | Some e => raise e
  | None => ret comm
  end.

(** [logging.debug(f"... global rank: {dist.get_rank()} rank: {comm.rank()}")]:
    the message is built, and [dist.get_rank()] called, whether or not the
    record is emitted. *)
Definition logging_debug_ranks (comm : Communicator) : M unit :=
  do _ <- dist_get_rank;
  ret tt.

Definition device_id_or_local_rank (device_id : option Z) : M Z :=
  match device_id with
  | None => get_local_rank
  | Some d => ret d
  end.

Definition init_bagua_inter_communicator (stream : Stream) (leader_rank : Z)
    (store : option StoreRef) (device_id : option Z)
    : M (option Communicator) :=
  do device_id <- device_id_or_local_rank device_id;
  do nccl_unique_id <- gen_nccl_unique_id "bagua_inter_comm" leader_rank store;
  do r <- get_rank;
  do l <- get_local_size;
  do m <- lift (py_mod r l);
  if negb (m =? leader_rank) then ret None
  else
    do r <- get_rank;
    do l <- get_local_size;
    do rank <- lift (py_floordiv r l);
    do w <- get_world_size;
    do l <- get_local_size;
    do nranks <- lift (py_floordiv w l);
    do comm <- BaguaSingleCommunicatorPy rank nranks device_id stream
                 nccl_unique_id;
    do _ <- logging_debug_ranks comm;
    ret (Some comm).

Definition init_bagua_intra_communicator (stream : Stream)
    (store : option StoreRef) (device_id : option Z) : M Communicator :=
  do device_id <- device_id_or_local_rank device_id;
  do r <- get_rank;
  do l <- get_local_size;
  do q <- lift (py_floordiv r l);
  do l <- get_local_size;
  do nccl_unique_id <- gen_nccl_unique_id "bagua_intra_comm" (q * l) store;
  do r <- get_rank;
  do l <- get_local_size;
  do rank <- lift (py_mod r l);
  do nranks <- get_local_size;
  do comm <- BaguaSingleCommunicatorPy rank nranks device_id stream
               nccl_unique_id;
  do _ <- logging_debug_ranks comm;
  ret comm.

Definition init_bagua_communicator (stream : Stream)
    (store : option StoreRef) (device_id : option Z) : M Communicator :=
  do device_id <- device_id_or_local_rank device_id;
  do nccl_unique_id <- gen_nccl_unique_id "bagua_global_comm" 0 store;
  do rank <- get_rank;
  do nranks <- get_world_size;
  do comm <- BaguaSingleCommunicatorPy rank nranks device_id stream
               nccl_unique_id;
  do _ <- logging_debug_ranks comm;
  ret comm.

(** [BaguaGlobalState.__init__]. *)
Definition BaguaGlobalState_init (store : option StoreRef)
    (device_id : option Z) : M BaguaGlobalState :=
  do device_id <- device_id_or_local_rank device_id;
  let backend := mkBackend 100 device_id in
  let stream := mkStream (-1) in
  let hyperparameters := DefaultHyperparameter in
  do addr <- get_master_addr;
  do port <- get_bagua_service_port;
  let hyperparameters_service_client := mkClient addr port in
  do internode_communicator <-
    init_bagua_inter_communicator stream 0 store (Some device_id);
  do intranode_communicator <-
    init_bagua_intra_communicator stream store (Some device_id);
  do global_communicator <-
    init_bagua_communicator stream store (Some device_id);
  ret (mkGlobalState backend stream store hyperparameters
         hyperparameters_service_client internode_communicator
         intranode_communicator global_communicator).

Definition init_process_group : M unit :=
  do initialized <- is_initialized;
  if initialized : bool then raise RepeatedInitializationError
  else
    do dist_is_initialized <- gets dist_initialized;
    do _ <- (if negb dist_is_initialized then
               do _ <- emit (EvDistInit "nccl" "env://");
               modify (with_dist_initialized true)
             else ret tt);
    do store <- _get_default_store;
    do r <- get_rank;
    do _ <- (if r =? 0 then
               do world_size <- get_world_size;
               do default_bucket_size <- get_default_bucket_size;
               do port <- get_bagua_service_port;
               modify (with_autotune_server
                         (Some (mkServer world_size default_bucket_size
                                  "0.0.0.0" port)))
             else ret tt);
    do gs <- BaguaGlobalState_init (Some store) None;
    modify (with_global_state (Some gs)).

(** *** Tensors held by a process *)

(** The tensor behind a reference.  A Python name always denotes an object;
    a reference outside the table only exists in the model. *)
Definition deref (t : nat) : M Tensor :=
  do h <- gets tensors;
  match h !! t with
  | Some v => ret v
  | None => raise DanglingReference
  end.

Fixpoint deref_all (ts : list nat) : M (list Tensor) :=
  match ts with
  | [] => ret []
  | t :: ts' => do v <- deref t; do vs <- deref_all ts'; ret (v :: vs)
  end.

(** Reading the elements of a tensor. *)
Definition read (t : nat) : M (list elem) :=
  do v <- deref t;
  do ss <- gets storages;
  match contents_in ss v with
  | Some d => ret d
  | None => raise DanglingReference
  end.

Fixpoint read_all (ts : list nat) : M (list (list elem)) :=
  match ts with
  | [] => ret []
  | t :: ts' => do d <- read t; do ds <- read_all ts'; ret (d :: ds)
  end.

(** Overwriting the elements of a tensor in place: the elements are written
    into the tensor's storage, where every tensor on that storage sees them,
    and the tensor keeps its number of elements (torch raises
    [RuntimeError] when the sizes do not match). *)
Definition write (t : nat) (d : list elem) : M unit :=
  do v <- deref t;
  do ss <- gets storages;
  match contents_in ss v with
  | Some _ =>
      if decide (length d = numel v)
      then modify (with_storages (store_in ss v d))
      else raise RuntimeError
  | None => raise DanglingReference
  end.

(** [buf.copy_(synced)], where [synced] is a view of the coalesced buffer
    with the shape of [buf]. *)
Definition copy_ (buf : nat) (synced : list elem) : M unit := write buf synced.

(** [x /= n] on the elements [d] of a tensor, for a Python integer [n]:
    true division, which torch refuses with [RuntimeError] when the element
    type cannot hold the quotients. *)
Definition itruediv (d : list elem) (n : Z) : result (list elem) :=
  if floating then Ok (map (fun x => true_divide x n) d)
  else Raise RuntimeError.

(** The tensors are on one and the same device, which is not the host. *)
Definition same_device_non_host (vs : list Tensor) : bool :=
  match vs with
  | [] => true
  | v :: _ =>
      negb (is_cpu (device v))
      && forallb (fun v' => bool_decide (device v' = device v)) vs
  end.

(** Modelled from the spec: [flatten] of [bagua/torch_api/utils.py], the
    coalescing step, "concatenates tensor contents in input order into one
    newly allocated region sized to the sum of element counts [...]; device
    of all inputs must be identical and non-host, else fails with
    [InvalidDeviceError]". *)
Definition flatten (tensors : list nat) : M (list elem) :=
  do vs <- deref_all tensors;
  if same_device_non_host vs then
    do ds <- read_all tensors;
    ret (concat ds)
  else raise InvalidDeviceError.

(** The slices of a buffer, one per tensor, in input order and of the
    tensor's element count. *)
Fixpoint unflatten_data (coalesced : list elem) (vs : list Tensor)
    : list (list elem) :=
  match vs with
  | [] => []
  | v :: vs' =>
      take (numel v) coalesced
      :: unflatten_data (drop (numel v) coalesced) vs'
  end.

(** Modelled from the spec: [unflatten] of [bagua/torch_api/utils.py], the
    first half of the scatter step, which cuts "each tensor's slice" from
    the coalesced buffer; a "tensor count/shape mismatch between coalesce
    and scatter phases" is a "programming error, fatal". *)
Definition unflatten (coalesced : list elem) (tensors : list nat)
    : M (list (list elem)) :=
  do vs <- deref_all tensors;
  if decide (length coalesced = sum_list (numel <$> vs))
  then ret (unflatten_data coalesced vs)
  else raise RuntimeError.

(** *** Collectives *)

(** Modelled from the spec: [comm.broadcast(b, root)] and
    [comm.allreduce(b)] of [bagua_core] on a buffer descriptor [b] (a
    pointer and an element count, "a view over externally owned storage"):
    the transport rewrites the described region in place, so what it leaves
    has the size of the region.  A connection that would answer with another
    size stands for ranks that do not agree on the size of their buffers,
    which the docstrings exclude; the model lets the transport fail then. *)
Definition comm_broadcast (comm : Communicator) (buf : list elem) (root : Z)
    : M (list elem) :=
  do _ <- emit (EvBroadcast comm root buf);
  do w <- gets wire;
  let received := wire_broadcast w root buf in
  if decide (length received = length buf)
  then ret received
  else raise TransportError.

(** Modelled from the spec: [comm.allreduce(b)], as [comm_broadcast]. *)
Definition comm_allreduce (comm : Communicator) (buf : list elem)
    : M (list elem) :=
  do _ <- emit (EvAllreduce comm buf);
  do w <- gets wire;
  let reduced := wire_allreduce w buf in
  if decide (length reduced = length buf)
  then ret reduced
  else raise TransportError.

(** [if comm is None: comm = _get_global_state().get_global_communicator()]. *)
Definition resolve_comm (comm : option Communicator) : M Communicator :=
  match comm with
  | Some c => ret c
  | None =>
      do gs <- _get_global_state;
      getattr gs global_communicator
  end.

Definition assert_not_cpu (tensor : nat) (msg : string) : M unit :=
  do v <- deref tensor;
  assert_ (negb (is_cpu (device v))) msg.

Definition broadcast_coalesced (tensors : list nat) (root : Z)
    (comm : option Communicator) : M unit :=
  do _ <- for_each tensors
            (fun tensor =>
               assert_not_cpu tensor "input tensors must be CUDA and dense");
  do comm <- resolve_comm comm;
  do _ <- emit EvRecordEvent;
  do _ <- emit (EvWaitEvent (cuda_stream comm));
  do coalesced <- flatten tensors;
  do coalesced <- comm_broadcast comm coalesced root;
  do views <- unflatten coalesced tensors;
  do _ <- for_each (zip tensors views)
            (fun '(buf, synced) => copy_ buf synced);
  emit EvSynchronize.

Definition broadcast (tensor : nat) (root : Z) (comm : option Communicator)
    : M unit :=
  do _ <- assert_not_cpu tensor "input tensor must be CUDA and dense";
  do comm <- resolve_comm comm;
  do _ <- emit EvRecordEvent;
  do _ <- emit (EvWaitEvent (cuda_stream comm));
  do buf <- read tensor;
  do received <- comm_broadcast comm buf root;
  do _ <- write tensor received;
  emit EvSynchronize.

Definition allreduce_coalesced (tensors : list nat)
    (comm : option Communicator) (average : bool) : M unit :=
  do _ <- for_each tensors
            (fun tensor =>
               assert_not_cpu tensor "input tensors must be CUDA and dense");
  do comm <- resolve_comm comm;
  do _ <- emit EvRecordEvent;
  do _ <- emit (EvWaitEvent (cuda_stream comm));
  do coalesced <- flatten tensors;
  do coalesced <- comm_allreduce comm coalesced;
  do coalesced <-
    (if average
     then lift (itruediv coalesced (nranks comm))
     else ret coalesced);
  do views <- unflatten coalesced tensors;
  do _ <- for_each (zip tensors views)
            (fun '(buf, synced) => copy_ buf synced);
  emit EvSynchronize.

Definition allreduce (tensor : nat) (average : bool)
    (comm : option Communicator) : M unit :=
  do _ <- assert_not_cpu tensor "input tensor must be CUDA and dense";
  do comm <- resolve_comm comm;
  do _ <- emit EvRecordEvent;
  do _ <- emit (EvWaitEvent (cuda_stream comm));
  do buf <- read tensor;
  do reduced <- comm_allreduce comm buf;
  do _ <- write tensor reduced;
  do _ <- (if average then
             do buf <- read tensor;
             do quotients <- lift (itruediv buf (nranks comm));
             write tensor quotients
           else ret tt);
  emit EvSynchronize.

(** *** The ranks of one job *)

(** The sum the transport computes from the values the ranks hold at one
    position, listed in rank order; like the element type it is left
    abstract. *)
Context (esum : list elem -> elem).

(** What the ranks hold at position [j] of their buffers [contribs], in
    rank order. *)
Definition column (j : nat) (contribs : list (list elem)) : list elem :=
  omap (fun buf => buf !! j) contribs.

(** Modelled from the spec: the all-reduce of the transport
    ([comm.allreduce] of [bagua_core]), "every member's buffer is combined
    via elementwise sum across all members; result is identical bitwise on
    every member".  [contribs] are the buffers of the ranks, in rank
    order. *)
Definition elementwise_sum (contribs : list (list elem)) : list elem :=
  map (fun j => esum (column j contribs))
      (seq 0 (length (default [] (head contribs)))).

(** Modelled from the spec: the broadcast of the transport
    ([comm.broadcast] of [bagua_core]), "root's buffer content is copied to
    all other members". *)
Definition root_buffer (root : Z) (contribs : list (list elem))
    (own : list elem) : list elem :=
  if root <? 0 then own else default own (contribs !! Z.to_nat root).

(** The connection of rank [i] during one collective call in which the
    ranks hand in the buffers [contribs]. *)
Definition world_wire (i : nat) (contribs : list (list elem)) : Wire :=
  mkWire
    (fun buf => elementwise_sum (<[i := buf]> contribs))
    (fun root buf => root_buffer root (<[i := buf]> contribs) buf).


(** Coalescing immediately followed by scattering: the two loops around
    the collective in [broadcast_coalesced] and [allreduce_coalesced], with
    nothing in between. *)
Definition coalesce_scatter (tensors : list nat) : M unit :=
  do coalesced <- flatten tensors;
  do views <- unflatten coalesced tensors;
  for_each (zip tensors views) (fun '(buf, synced) => copy_ buf synced).

(** The storages after the scatter loop has copied [views] into the
    tensors [vs], in order. *)
Fixpoint write_back (ss : gmap nat (list elem)) (vs : list Tensor)
    (views : list (list elem)) : gmap nat (list elem) :=
  match vs, views with
  | v :: vs', d :: views' => write_back (store_in ss v d) vs' views'
  | _, _ => ss
  end.

(** A newly started process, with the transport library of
    [spec_comm_new]. *)
Definition boot (e : Env) (ids : nat -> string) (s : gmap string string)
    : Process :=
  mkProcess e None None false s ∅ ∅ ids 0 spec_comm_new
    (mkWire id (fun _ => id)) [].

(** The environment the launcher gives rank [r] of a job of [W] processes,
    [L] per node. *)
Definition job_env (W L r : Z) : Env :=
  mkEnv r W (r mod L) L "127.0.0.1" 29500 10485760.

(** Every rank of the job calls [init_process_group], the ranks taking
    their turn in rank order on the one shared store. *)
Definition init_world (W L : Z) (ids : Z -> nat -> string)
    : list (Process * result unit) :=
  snd (fold_left
         (fun '(s, finished) r =>
            let '(p, res) := init_process_group (boot (job_env W L r) (ids r) s) in
            (default_store p, finished ++ [(p, res)]))
         (seqZ 0 W) (∅, [])).

(** *** Vocabulary of the statements about processes *)

Definition on_cuda (p : Process) (t : nat) : Prop :=
  exists v, tensors p !! t = Some v /\ is_cpu (device v) = false.

Definition on_cpu (p : Process) (t : nat) : Prop :=
  exists v, tensors p !! t = Some v /\ is_cpu (device v) = true.

Definition allocated (p : Process) (t : nat) : Prop :=
  is_Some (tensors p !! t).

(** The elements a tensor holds in a process, if it lies within its
    storage. *)
Definition contents (p : Process) (v : Tensor) : option (list elem) :=
  contents_in (storages p) v.



(** Element [j] of storage [k] belongs to the tensor [v]. *)
Definition covers (v : Tensor) (k j : nat) : Prop :=
  storage v = k /\ (storage_offset v <= j < storage_offset v + numel v)%nat.

(** Element [j] of storage [k], if there is one. *)
Definition element (ss : gmap nat (list elem)) (k j : nat) : option elem :=
  match ss !! k with
  | Some s => s !! j
  | None => None
  end.

(** The storages [ss'] differ from [ss] at most in the elements of the
    tensors [vs]: no storage appears, disappears or changes its size, and
    every element outside these tensors keeps its value. *)
Definition storages_agree_outside (vs : list Tensor)
    (ss ss' : gmap nat (list elem)) : Prop :=
  (forall k, length <$> ss' !! k = length <$> ss !! k) /\
  (forall k j, (forall v, v ∈ vs -> ~ covers v k j) ->
     element ss' k j = element ss k j).


(** The library builds every communicator of the given rank and size. *)
Definition builds (p : Process) (rank nranks : Z) : Prop :=
  forall device_id stream idstr,
    comm_new p (mkComm rank nranks device_id stream idstr stream) = None.

(** The rendezvous for [comm_type] rooted at [root] does not make the
    process wait: it is the root, or the key is in the store already. *)
Definition rendezvous_ready (p : Process) (comm_type : string) (root : Z)
    : Prop :=
  RANK (env p) = root \/
  is_Some (default_store p !! unique_id_key comm_type root).

(** The process after the root of a scope has generated its identifier
    and published it under [key]. *)
Definition published (p : Process) (key : string) : Process :=
  mkProcess (env p) (_global_state p) (_autotune_server p)
    (dist_initialized p)
    (<[key := unique_ids p (generated p)]> (default_store p)) (tensors p)
    (storages p) (unique_ids p) (S (generated p)) (comm_new p) (wire p)
    ((trace p ++ [EvGenerateId (unique_ids p (generated p))])
     ++ [EvStoreSet key (unique_ids p (generated p))]).

(** What a completed rendezvous leaves alone. *)
Definition rendezvous_frame (p p' : Process) : Prop :=
  env p' = env p /\ comm_new p' = comm_new p /\
  dist_initialized p' = dist_initialized p.

(** The process and the outcome after the constructor has been called for
    the communicator [c] and the log message has been built. *)
Definition constructed (p : Process) (c : Communicator)
    : Process * result Communicator :=
  (with_trace (trace p ++ [EvCommInit c]) p,
   match comm_new p c with
   | Some e => Raise e
   | None => if dist_initialized p then Ok c else Raise DistNotInitialized
   end).

(** The process as [init_process_group] has left it when it reaches
    [BaguaGlobalState(store)]: [torch.distributed] is initialized, and on
    rank 0 the autotune server has been started. *)
Definition before_global_state (p : Process) : Process :=
  let p1 :=
    if dist_initialized p then p
    else with_dist_initialized true
           (with_trace (trace p ++ [EvDistInit "nccl" "env://"]) p) in
  if RANK (env p1) =? 0 then
    with_autotune_server
      (Some (mkServer (WORLD_SIZE (env p1)) (BAGUA_DEFAULT_BUCKET_SIZE (env p1))
               "0.0.0.0" (BAGUA_SERVICE_PORT (env p1)))) p1
  else p1.

(** Every outcome of the action [m] leaves the process related to the one
    it started from. *)
Definition preserves {X : Type} (R : Process -> Process -> Prop) (m : M X)
    : Prop :=
  forall p p' r, m p = (p', r) -> R p p'.

(** What building communicators leaves alone: the environment, the module
    globals, the state of [torch.distributed], the tensors, their storages,
    the library and the connection; and no key disappears from the store. *)
Definition init_frame (p p' : Process) : Prop :=
  env p' = env p /\
  _global_state p' = _global_state p /\
  _autotune_server p' = _autotune_server p /\
  dist_initialized p' = dist_initialized p /\
  tensors p' = tensors p /\
  storages p' = storages p /\
  comm_new p' = comm_new p /\
  wire p' = wire p /\
  forall k, is_Some (default_store p !! k) -> is_Some (default_store p' !! k).

End Process.

(** *** Concrete processes *)

Definition example_ids (r : Z) (n : nat) : string :=
  "nccl-id-" +:+ pretty r +:+ "-" +:+ pretty n.

(** The only process of a job of one, before initialization. *)
Definition single_process : @Process Z :=
  boot (job_env 1 1 0) (example_ids 0) ∅.

(** A tensor of two elements on the host, in storage 0, and one on a
    device, in storage 1. *)
Definition host_tensor : Tensor := mkTensor Cpu 0 0 2.
Definition device_tensor : Tensor := mkTensor (Cuda 0) 1 0 2.



(** A process of rank [r] in a job of [W], [L] per node, after
    [torch.distributed] has been initialized, holding the given tensors and
    storages and connected by [w]. *)
Definition worker {elem : Type} (W L r : Z) (h : gmap nat Tensor)
    (ss : gmap nat (list elem)) (w : @Wire elem) : @Process elem :=
  with_wire w
    (with_storages ss
       (with_tensors h
          (with_dist_initialized true
             (boot (job_env W L r) (example_ids r) ∅)))).






(** A process holding three device tensors of which the first two overlap
    in storage 1, the third lying in storage 2. *)
Definition overlapping_tensors : @Process Z :=
  worker 1 1 0
    (<[0%nat := mkTensor (Cuda 0) 1 0 3]>
       (<[1%nat := mkTensor (Cuda 0) 1 2 2]>
          (<[2%nat := mkTensor (Cuda 0) 2 0 1]> ∅)))
    (<[1%nat := [1; 2; 3; 4]]> (<[2%nat := [5]]> ∅))
    (mkWire id (fun _ => id)).

(** The communicators a process ends up with, each as (rank, size): the
    inter-node one if any, the intra-node one and the global one. *)
Definition rank_size (c : Communicator) : Z * Z := (rank c, nranks c).

Definition topology_of {elem : Type} (p : @Process elem)
    : option (option (Z * Z) * (Z * Z) * (Z * Z)) :=
  match _global_state p with
  | Some gs =>
      Some (option_map rank_size (internode_communicator gs),
            rank_size (intranode_communicator gs),
            rank_size (global_communicator gs))
  | None => None
  end.

(** For every rank of a job, in rank order: the rank, what
    [init_process_group] returned and the communicators it left. *)
Definition world_topology (W L : Z)
    : list (Z * result unit * option (option (Z * Z) * (Z * Z) * (Z * Z))) :=
  map (fun '(p, r) => (RANK (env p), r, topology_of p))
      (@init_world Z W L example_ids).

(** A rank of a job after [torch.distributed] has been initialized, seeing
    the store [s]. *)
Definition started (W L r : Z) (s : gmap string string) : @Process Z :=
  with_dist_initialized true (boot (job_env W L r) (example_ids r) s).

(** Rank 4 of a job of 8 with 4 processes per node, started after rank 0
    has published the identifiers it is the root of. *)
Definition rank4_of_8 : @Process Z :=
  started 8 4 4
    (<["bagua_inter_comm-0-unique_id" := "nccl-id-0-0"]>
       (<["bagua_global_comm-0-unique_id" := "nccl-id-0-2"]> ∅)).

(** Rank 1 of the same job, started before any other rank. *)
Definition rank1_of_8 : @Process Z := started 8 4 1 ∅.

(** Rank 0 of a job of 6 with 4 processes per node. *)
Definition rank0_of_6 : @Process Z := started 6 4 0 ∅.

(** Rank 0 of the job of 8, and rank 1 started after rank 0 has run its
    inter-node rendezvous. *)
Definition rank0_of_8 : @Process Z := started 8 4 0 ∅.

Definition rank1_after_rank0 : @Process Z :=
  started 8 4 1
    (default_store
       (fst (gen_nccl_unique_id "bagua_inter_comm" 0 None rank0_of_8))).

(** Rank 4 of the job of 8 seeing the same store before
    [torch.distributed] is initialized. *)
Definition rank4_of_8_before_dist : @Process Z :=
  boot (job_env 8 4 4) (example_ids 4)
    (<["bagua_inter_comm-0-unique_id" := "nccl-id-0-0"]>
       (<["bagua_global_comm-0-unique_id" := "nccl-id-0-2"]> ∅)).

(** A process whose environment gives a local size of zero. *)
Definition rank0_no_local_size : @Process Z :=
  with_dist_initialized true
    (boot (mkEnv 0 8 0 0 "127.0.0.1" 29500 10485760) (example_ids 0) ∅).


(** [single_process] holding a host tensor under reference 0 and a device
    tensor under reference 1. *)
Definition single_process_with_tensors : @Process Z :=
  with_storages (<[0%nat := [1; 2]]> (<[1%nat := [1; 2]]> ∅))
    (with_tensors (<[0%nat := host_tensor]> (<[1%nat := device_tensor]> ∅))
       single_process).
End Comm.
(** ** distributed/launch.py *)

Module Launch.
Local Open Scope Z_scope.

(** The command-line options [main] reads. *)
Record Args : Type := mkArgs {
  nnodes : Z;
  node_rank : Z;
  nproc_per_node : Z;
  master_addr : string;
  master_port : Z;
  bagua_service_port : Z;
  set_additional_flag : bool;
  module : bool;
  no_python : bool;
  logdir : option string;
  autotune_level : Z;
  default_bucket_size : Z;
  training_script : string;
  training_script_args : list string
}.

(** What [main] finds outside the process: [os.environ], [sys.executable]
    and, for the path [--logdir] names, [os.path.exists] and
    [os.path.isdir]. *)
Record Host : Type := mkHost {
  environ : gmap string string;
  executable : string;
  logdir_exists : bool;
  logdir_isdir : bool
}.

(** One call of [subprocess.Popen]: the command, the environment as it is
    at the call, and the names of the files opened in the log directory for
    the standard output and error (none without [--logdir]). *)
Record Spawn : Type := mkSpawn {
  cmd : list string;
  spawn_env : gmap string string;
  log_names : option (string * string)
}.

(** [main] raises [ValueError] or gets as far as its waiting loop. *)
Inductive outcome (X : Type) : Type :=
| Done (x : X)
| ValueError (msg : string).
Arguments Done {X} x.
Arguments ValueError {X} msg.

(** What [main] has done when it starts waiting for its subprocesses. *)
Record Launched : Type := mkLaunched {
  made_logdir : bool;
  spawned : list Spawn
}.

(** The truth value of [args.logdir]: [None] and the empty string are
    false. *)
Definition logdir_given (args : Args) : bool :=
  match logdir args with
  | None | Some "" => false
  | Some _ => true
  end.

Definition set_bagua_env (args : Args) (current_env : gmap string string)
    : gmap string string :=
  <["BAGUA_AUTOTUNE" := pretty (autotune_level args)]>
    (<["BAGUA_DEFAULT_BUCKET_SIZE" := pretty (default_bucket_size args)]>
       (<["BAGUA_SERVICE_PORT" := pretty (bagua_service_port args)]>
          current_env)).

(** [args.nproc_per_node * args.node_rank + local_rank]. *)
Definition dist_rank (args : Args) (local_rank : Z) : Z :=
  nproc_per_node args * node_rank args + local_rank.

(** The command of one subprocess. *)
Definition build_cmd (args : Args) (host : Host) (local_rank : Z)
    : outcome (list string) :=
  let with_python := negb (no_python args) in
  match
    (if with_python then
       Done ([executable host; "-u"] ++ (if module args then ["-m"] else []))
     else if module args then
       ValueError
         "Don't use both the '--no_python' flag and the '--module' flag at the same time."
     else Done [])
  with
  | ValueError msg => ValueError msg
  | Done cmd =>
      let cmd := cmd ++ [training_script args] in
      let cmd :=
        if set_additional_flag args
        then cmd ++ ["--local_rank=" +:+ pretty local_rank]
        else cmd in
      Done (cmd ++ training_script_args args)
  end.

Definition log_file_names (args : Args) (local_rank : Z)
    : option (string * string) :=
  if logdir_given args then
    Some ("node_" +:+ pretty (node_rank args) +:+ "_local_rank_"
            +:+ pretty local_rank +:+ "_stdout",
          "node_" +:+ pretty (node_rank args) +:+ "_local_rank_"
            +:+ pretty local_rank +:+ "_stderr")
  else None.

(** The loop [for local_rank in range(0, args.nproc_per_node)] over the
    local ranks still to come, with the one dictionary [current_env] that
    every iteration updates and the list [processes]. *)
Fixpoint spawn_loop (args : Args) (host : Host) (local_ranks : list Z)
    (current_env : gmap string string) (processes : list Spawn)
    : outcome (list Spawn) :=
  match local_ranks with
  | [] => Done processes
  | local_rank :: rest =>
      let current_env :=
        <["LOCAL_SIZE" := pretty (nproc_per_node args)]>
          (<["LOCAL_RANK" := pretty local_rank]>
             (<["RANK" := pretty (dist_rank args local_rank)]> current_env)) in
      match build_cmd args host local_rank with
      | ValueError msg => ValueError msg
      | Done cmd =>
          spawn_loop args host rest current_env
            (processes
               ++ [mkSpawn cmd current_env (log_file_names args local_rank)])
      end
  end.

(** The environment [main] has prepared when it enters the loop. *)
Definition base_env (args : Args) (host : Host) : gmap string string :=
  let dist_world_size := nproc_per_node args * nnodes args in
  let current_env := environ host in
  let current_env := <["MASTER_ADDR" := master_addr args]> current_env in
  let current_env := <["MASTER_PORT" := pretty (master_port args)]> current_env in
  let current_env := <["WORLD_SIZE" := pretty dist_world_size]> current_env in
  let current_env := set_bagua_env args current_env in
  if bool_decide (environ host !! "OMP_NUM_THREADS" = None)
     && (1 <? nproc_per_node args)
  then <["OMP_NUM_THREADS" := pretty 1]> current_env
  else current_env.

(** [main], up to its waiting loop. *)
Definition main (args : Args) (host : Host) : outcome Launched :=
  let current_env := base_env args host in
  match
    (if logdir_given args then
       if logdir_exists host then
         if negb (logdir_isdir host)
         then ValueError "argument --logdir must be a path to a directory."
         else Done false
       else Done true
     else Done false)
  with
  | ValueError msg => ValueError msg
  | Done made =>
      match spawn_loop args host (seqZ 0 (nproc_per_node args)) current_env []
      with
      | ValueError msg => ValueError msg
      | Done processes => Done (mkLaunched made processes)
      end
  end.

(** The same options on another node: [--node_rank] is the one option
    that differs between the launchers of a job. *)
Definition on_node (node : Z) (args : Args) : Args :=
  mkArgs (nnodes args) node (nproc_per_node args) (master_addr args)
    (master_port args) (bagua_service_port args) (set_additional_flag args)
    (module args) (no_python args) (logdir args) (autotune_level args)
    (default_bucket_size args) (training_script args)
    (training_script_args args).

(** The variables [main] writes into the environment of a subprocess. *)
Definition launch_variables : list string :=
  ["MASTER_ADDR"; "MASTER_PORT"; "WORLD_SIZE"; "BAGUA_SERVICE_PORT";
   "BAGUA_DEFAULT_BUCKET_SIZE"; "BAGUA_AUTOTUNE"; "OMP_NUM_THREADS";
   "RANK"; "LOCAL_RANK"; "LOCAL_SIZE"].

(** The options of a launch of 4 processes on node 1 of 2. *)
Definition example_args : Args :=
  mkArgs 2 1 4 "10.0.0.1" 29500 29501 true false false None 0 10485760
    "train.py" ["--epochs"; "3"].

(** The same launch with [--no_python] and [--module]. *)
Definition conflicting_args : Args :=
  mkArgs 2 1 4 "10.0.0.1" 29500 29501 true true true None 0 10485760
    "train.py" ["--epochs"; "3"].

Definition example_host : Host :=
  mkHost (<["PATH" := "/usr/bin"]> ∅) "/usr/bin/python3" false false.
End Launch.

(** * Properties *)

(** ** Python's [sorted] *)

Section SortedFacts.
Context {T : Type} (key : T -> Z).
Local Open Scope Z_scope.

Lemma insert_by_Permutation (x : T) (l : list T) :
  Permutation (insert_by key x l) (x :: l).
Proof.
  induction l as [|y l IH]; simpl; [done|].
  destruct (key x <=? key y); [done|].
  rewrite IH. apply Permutation_swap.
Qed.

Lemma py_sorted_Permutation (l : list T) : Permutation (py_sorted key l) l.
Proof.
  induction l as [|x l IH]; simpl; [done|].
  rewrite insert_by_Permutation. by constructor.
Qed.

Lemma insert_by_sorted (x : T) (l : list T) :
  StronglySorted (fun a b => key a <= key b) l ->
  StronglySorted (fun a b => key a <= key b) (insert_by key x l).
Proof.
  induction 1 as [|y l Hs IH Hy]; simpl.
  - repeat constructor.
  - destruct (Z.leb_spec (key x) (key y)) as [Hle|Hgt].
    + constructor; [by constructor|].
      constructor; [done|].
      eapply Forall_impl; [exact Hy|]. simpl. intros; lia.
    + constructor; [done|].
      rewrite insert_by_Permutation. constructor; [lia|done].
Qed.

Lemma py_sorted_sorted (l : list T) :
  StronglySorted (fun a b => key a <= key b) (py_sorted key l).
Proof.
  induction l as [|x l IH]; simpl; [constructor|by apply insert_by_sorted].
Qed.

Lemma insert_by_filter (k : Z) (x : T) (l : list T) :
  StronglySorted (fun a b => key a <= key b) l ->
  filter (fun a => key a = k) (insert_by key x l)
  = filter (fun a => key a = k) (x :: l).
Proof.
  induction 1 as [|y l Hs IH Hy]; simpl; [done|].
  destruct (Z.leb_spec (key x) (key y)) as [Hle|Hgt]; [done|].
  rewrite !filter_cons in *.
  destruct (decide (key y = k)) as [Hyk|Hyk];
    destruct (decide (key x = k)) as [Hxk|Hxk]; try lia; by rewrite IH.
Qed.

Lemma py_sorted_stable (k : Z) (l : list T) :
  filter (fun a => key a = k) (py_sorted key l) = filter (fun a => key a = k) l.
Proof.
  induction l as [|x l IH]; simpl; [done|].
  rewrite insert_by_filter by apply py_sorted_sorted.
  by rewrite !filter_cons, IH.
Qed.

Lemma py_sorted_stable_sort (l : list T) : stable_sort_of key l (py_sorted key l).
Proof.
  split; [apply py_sorted_Permutation|].
  split; [apply py_sorted_sorted|]. intros k. apply py_sorted_stable.
Qed.
End SortedFacts.

(** ** The grouper of [fuse_optimizer.py] *)

Section FuseFacts.
Import Fuse.
Local Open Scope Z_scope.

Lemma contiguous_afterb_spec (x y : Param) :
  contiguous_afterb x y = true <-> contiguous_after x y.
Proof.
  unfold contiguous_afterb, contiguous_after. split.
  - destruct (grad x) as [gx|], (grad y) as [gy|]; try done.
    intros [H1 H2]%andb_true_iff. split; [lia|]. exists gx, gy. repeat split; lia.
  - intros [H1 (gx & gy & -> & -> & H2)]. apply andb_true_iff. lia.
Qed.

Lemma mergeableb_spec (x y : Param) : mergeableb x y = true <-> mergeable x y.
Proof.
  unfold mergeableb, mergeable.
  by rewrite orb_true_iff, !contiguous_afterb_spec.
Qed.

(** With both gradients present the test never raises, and it is the
    symmetric one. *)
Lemma is_contiguous_param_mergeableb (p q : Param) :
  has_grad p -> has_grad q -> is_contiguous_param p q = Ok (mergeableb q p).
Proof.
  intros [gp Hp] [gq Hq].
  unfold is_contiguous_param, follows, grad_storage_offset, mergeableb,
    contiguous_afterb.
  rewrite Hp, Hq. simpl.
  destruct (storage_offset p =? storage_offset q + allocate_size q); simpl.
  - destruct (gp =? gq + allocate_size q); simpl; [done|].
    destruct (storage_offset q =? storage_offset p + allocate_size p); done.
  - destruct (storage_offset q =? storage_offset p + allocate_size p); done.
Qed.

(** Without gradients the test raises as soon as the data offsets match. *)
Lemma is_contiguous_param_no_grad (p q : Param) :
  grad p = None ->
  storage_offset p = storage_offset q + allocate_size q ->
  is_contiguous_param p q = Raise AttributeError.
Proof.
  intros Hp Ho. unfold is_contiguous_param, follows, grad_storage_offset.
  rewrite Hp. by rewrite (proj2 (Z.eqb_eq _ _) Ho).
Qed.

Lemma chain_snoc (R : Param -> Param -> Prop) (l : list Param) (q p : Param) :
  chain R l -> last l = Some q -> R q p -> chain R (l ++ [p]).
Proof.
  induction l as [|x [|y l] IH]; simpl; intros Hc Hl Hr; [done|..].
  - by simplify_eq.
  - destruct Hc as [Hxy Hc]. split; [done|]. by apply IH.
Qed.

(** The loop of [reorder_params] produces the runs of [split_runs], each
    one handed to [collocate_params] in turn. *)
Lemma reorder_loop_split_runs {G : Type} (c : list Param -> result G)
    (rest : list Param) (grouped : list G) (tmp : list Param) :
  Forall has_grad (tmp ++ rest) ->
  reorder_loop c rest grouped tmp =
  (do rs <- mapM c (split_runs mergeableb tmp rest); Ok (grouped ++ rs))%result.
Proof.
  revert grouped tmp. induction rest as [|p rest IH]; intros grouped tmp Hg.
  - destruct tmp as [|x tmp]; simpl; [by rewrite app_nil_r|].
    by destruct (c (x :: tmp)).
  - simpl. destruct (last tmp) as [q|] eqn:Hlast.
    + assert (has_grad p /\ has_grad q) as [Hp Hq].
      { rewrite Forall_forall in Hg. split; apply Hg.
        - apply elem_of_app. right. by left.
        - apply elem_of_app. left. by apply last_Some_elem_of. }
      rewrite (is_contiguous_param_mergeableb p q Hp Hq). simpl.
      destruct (mergeableb q p); simpl.
      * apply IH. by rewrite <- app_assoc.
      * destruct (c tmp) as [g| |]; simpl; [|done..].
        rewrite IH.
        -- destruct (mapM c (split_runs mergeableb [p] rest)); simpl; [|done..].
           by rewrite <- app_assoc.
        -- apply Forall_app in Hg as [_ Hg]. exact Hg.
    + apply IH. by rewrite <- app_assoc.
Qed.

Lemma split_runs_maximal (R : Param -> Param -> Prop) (Rb : Param -> Param -> bool)
    (HR : forall x y, Rb x y = true <-> R x y) (l cur : list Param) :
  chain R cur ->
  maximal_runs R (cur ++ l) (split_runs Rb cur l) /\
  (cur <> [] -> exists t rs, split_runs Rb cur l = (cur ++ t) :: rs).
Proof.
  unfold maximal_runs. revert cur.
  induction l as [|p rest IH]; intros cur Hc.
  - destruct cur as [|x cur]; simpl.
    + repeat split; try constructor. done.
    + rewrite !app_nil_r. repeat split; try by repeat constructor.
      intros _. exists [], []. by rewrite app_nil_r.
  - simpl. destruct (last cur) as [q|] eqn:Hlast.
    + assert (cur <> []) as Hne by (intros ->; done).
      destruct (Rb q p) eqn:Hqp.
      * destruct (IH (cur ++ [p])) as [(H1 & H2 & H3 & H4) H5].
        { eapply chain_snoc; [done..|]. by apply HR. }
        rewrite <- app_assoc in H1. repeat split; try done.
        intros _. destruct H5 as (t & rs & ->); [by destruct cur|].
        exists (p :: t), rs. by rewrite <- app_assoc.
      * destruct (IH [p]) as [(H1 & H2 & H3 & H4) H5]; [done|].
        destruct H5 as (t & rs & Hrs); [done|].
        repeat split.
        -- simpl. by rewrite H1.
        -- by constructor.
        -- by constructor.
        -- rewrite Hrs in *. split; [|done].
           intros x y Hx Hy. simpl in Hy. simplify_eq.
           rewrite <- HR. by rewrite Hqp.
        -- intros _. exists [], (split_runs Rb [p] rest). by rewrite app_nil_r.
    + apply last_None in Hlast as ->. simpl.
      destruct (IH [p]) as [H1 H5]; [done|]. split; [done | by intros []].
Qed.

(** On an ascending list, two tests that agree on every ordered pair cut
    the same runs. *)
Lemma split_runs_ext (Rb Rb' : Param -> Param -> bool) (l cur : list Param) :
  StronglySorted (fun x y => storage_offset x <= storage_offset y) (cur ++ l) ->
  (forall x y, x ∈ cur ++ l -> y ∈ cur ++ l ->
     storage_offset x <= storage_offset y -> Rb x y = Rb' x y) ->
  split_runs Rb cur l = split_runs Rb' cur l.
Proof.
  revert cur. induction l as [|p rest IH]; intros cur Hs Hag; [done|].
  simpl. destruct (last cur) as [q|] eqn:Hlast.
  - assert (Rb q p = Rb' q p) as ->.
    { apply Hag.
      - apply elem_of_app. left. by apply last_Some_elem_of.
      - apply elem_of_app. right. by left.
      - apply (StronglySorted_app_1_elem_of
                 (fun x y => storage_offset x <= storage_offset y)
                 cur (p :: rest) q p Hs); [|by left].
        by apply last_Some_elem_of. }
    destruct (Rb' q p).
    + apply IH; by rewrite <- app_assoc.
    + f_equal. apply IH.
      * by apply StronglySorted_app_1_r in Hs.
      * intros x y Hx Hy. apply Hag; apply elem_of_app; by right.
  - apply IH; by rewrite <- app_assoc.
Qed.

(** When the later parameter is not empty the backward alternative of the
    test cannot hold. *)
Lemma mergeableb_forward (x y : Param) :
  storage_offset x <= storage_offset y -> 0 < allocate_size y ->
  mergeableb x y = contiguous_afterb x y.
Proof.
  intros Hle Hpos. unfold mergeableb.
  destruct (contiguous_afterb y x) eqn:Hb; [|by rewrite orb_false_r].
  apply contiguous_afterb_spec in Hb as [Hb _]. lia.
Qed.

Lemma mapM_Ok {X : Type} (l : list X) : mapM Ok l = Ok l.
Proof. induction l as [|x l IH]; simpl; [done|]. by rewrite IH. Qed.

Lemma rbind_Ok_r {X : Type} (m : result X) : (do x <- m; Ok x)%result = m.
Proof. by destruct m. Qed.

Lemma py_sorted_ABC (ps : list Param) :
  Permutation ps [A; B; C] -> py_sorted storage_offset ps = [A; B; C].
Proof.
  intros Hp.
  apply (StronglySorted_unique_strong
           (fun x y => storage_offset x <= storage_offset y)).
  - intros x1 x2 H1 H2 Hle Hge.
    rewrite py_sorted_Permutation, Hp in H1.
    assert (storage_offset x1 = storage_offset x2) as Heq by lia.
    clear Hle Hge.
    assert (forall x, x ∈ [A; B; C] -> x = A \/ x = B \/ x = C) as Hin.
    { intros x Hx. rewrite !elem_of_cons, elem_of_nil in Hx. tauto. }
    destruct (Hin _ H1) as [? | [? | ?]], (Hin _ H2) as [? | [? | ?]]; subst;
      first [reflexivity | vm_compute in Heq; discriminate Heq].
  - apply py_sorted_sorted.
  - repeat constructor; simpl; lia.
  - by rewrite py_sorted_Permutation.
Qed.

(** C1 (as amended).  For parameters that all carry a gradient,
    [reorder_params] sorts them by storage offset (ascending, stable), cuts
    the sorted list into the maximal runs of neighbours accepted by the
    symmetric test of [is_contiguous_param] (the later parameter starts where
    the earlier one ends, or the earlier one starts where the later one ends,
    for data and gradient alike) and hands each run, in order, to
    [collocate_params].  When every allocated element count is positive the
    runs are exactly the maximal runs of the forward relation alone: the
    later parameter's data and gradient offsets equal the earlier's plus the
    earlier's allocated element count.  For the parameters A=(0,10),
    B=(10,10), C=(30,5), given in any order, the runs are [A,B] then [C]. *)
Theorem reorder_params_maximal_runs (ps : list Param) :
  Forall has_grad ps ->
  let sorted_params := py_sorted storage_offset ps in
  stable_sort_of storage_offset ps sorted_params /\
  exists runs : list (list Param),
    param_runs ps = Ok runs /\
    (forall (G : Type) (collocate_params : list Param -> result G),
        reorder_params collocate_params ps = mapM collocate_params runs) /\
    maximal_runs mergeable sorted_params runs /\
    (Forall (fun p => 0 < allocate_size p) ps ->
     maximal_runs contiguous_after sorted_params runs) /\
    (Permutation ps [A; B; C] -> runs = [[A; B]; [C]]).
Proof.
  intros Hg sorted_params.
  assert (Forall has_grad sorted_params) as Hgs.
  { unfold sorted_params. by rewrite py_sorted_Permutation. }
  assert (forall (G : Type) (c : list Param -> result G),
             reorder_params c ps = mapM c (split_runs mergeableb [] sorted_params))
    as Hrun.
  { intros G c. unfold reorder_params. fold sorted_params.
    rewrite reorder_loop_split_runs by done. simpl. apply rbind_Ok_r. }
  split; [apply py_sorted_stable_sort|].
  exists (split_runs mergeableb [] sorted_params).
  split; [unfold param_runs; by rewrite Hrun, mapM_Ok|].
  split; [exact Hrun|].
  split; [|split].
  - apply (split_runs_maximal mergeable mergeableb mergeableb_spec
             sorted_params []). done.
  - intros Hpos.
    rewrite (split_runs_ext mergeableb contiguous_afterb sorted_params []).
    + apply (split_runs_maximal contiguous_after contiguous_afterb
               contiguous_afterb_spec sorted_params []). done.
    + apply py_sorted_sorted.
    + simpl. intros x y _ Hy Hle. apply mergeableb_forward; [done|].
      unfold sorted_params in Hy. rewrite py_sorted_Permutation in Hy.
      rewrite Forall_forall in Hpos. by apply Hpos.
  - intros Hp. unfold sorted_params. by rewrite (py_sorted_ABC ps Hp).
Qed.

Lemma reorder_params_maximal_runs_witness :
  Forall has_grad [C; A; B] /\
  param_runs [C; A; B] = Ok [[A; B]; [C]] /\
  maximal_runs contiguous_after [A; B; C] [[A; B]; [C]].
Proof.
  assert (Forall has_grad [C; A; B]) as Hg by (repeat constructor; by eexists).
  split; [exact Hg|].
  destruct (reorder_params_maximal_runs [C; A; B] Hg)
    as (_ & runs & Hruns & _ & _ & Hfwd & Hex).
  rewrite (Hex ltac:(by rewrite (Permutation_cons_append [A; B] C))) in *.
  split; [exact Hruns|].
  apply Hfwd. repeat constructor.
Defined.

(** C1 (as stated) fails: an empty parameter [E] at the offset where [A]
    starts sorts after [A] and is merged into [A]'s run by the backward
    alternative of the test, although [E] does not start where [A] ends. *)
Lemma reorder_params_merges_backward :
  Forall has_grad [A; E] /\
  py_sorted storage_offset [A; E] = [A; E] /\
  param_runs [A; E] = Ok [[A; E]] /\
  ~ contiguous_after A E.
Proof.
  split; [repeat constructor; by eexists|].
  split; [reflexivity|]. split; [reflexivity|].
  intros [H _]. discriminate H.
Qed.
End FuseFacts.

(** ** Grouping by storage and the optimizer step *)

Section DictFacts.
Context {V : Type}.
Local Open Scope Z_scope.

Lemma dict_get_map (g : Z -> V) (ks : list Z) (k : Z) (dflt : V) :
  dict_get (map (fun k' => (k', g k')) ks) k dflt
  = if decide (k ∈ ks) then g k else dflt.
Proof.
  induction ks as [|k' ks IH]; simpl; [done|].
  destruct (Z.eqb_spec k' k) as [->|Hne].
  - rewrite decide_True; [done | by left].
  - rewrite IH. destruct (decide (k ∈ ks)) as [Hin|Hin].
    + rewrite decide_True; [done | by right].
    + rewrite decide_False; [done|]. rewrite elem_of_cons. intros [?|?]; by subst.
Qed.

Lemma dict_setitem_map (g : Z -> V) (ks : list Z) (k : Z) (v : V) :
  NoDup ks ->
  dict_setitem (map (fun k' => (k', g k')) ks) k v
  = if decide (k ∈ ks)
    then map (fun k' => (k', if decide (k' = k) then v else g k')) ks
    else map (fun k' => (k', g k')) ks ++ [(k, v)].
Proof.
  induction 1 as [|k' ks Hk' Hnd IH]; simpl; [done|].
  destruct (Z.eqb_spec k' k) as [->|Hne].
  - rewrite decide_True by (by left). rewrite decide_True by done.
    f_equal. apply map_ext_in. intros k' Hin.
    rewrite decide_False; [done|]. intros ->. by apply Hk', list_elem_of_In.
  - rewrite IH. rewrite (decide_False (P := k' = k)) by done.
    destruct (decide (k ∈ ks)) as [Hin|Hin].
    + rewrite decide_True; [done | by right].
    + rewrite decide_False; [done|]. rewrite elem_of_cons. intros [?|?]; by subst.
Qed.
End DictFacts.

Section GroupFacts.
Import Fuse.
Local Open Scope Z_scope.

Lemma elem_of_first_occurrences (l : list Z) (k : Z) :
  k ∈ first_occurrences l <-> k ∈ l.
Proof.
  induction l as [|x l IH]; simpl; [done|].
  rewrite !elem_of_cons, list_elem_of_filter, IH.
  destruct (decide (k = x)); tauto.
Qed.

Lemma NoDup_first_occurrences (l : list Z) : NoDup (first_occurrences l).
Proof.
  induction l as [|x l IH]; simpl; constructor.
  - rewrite list_elem_of_filter. by intros [? _].
  - by apply NoDup_filter.
Qed.

Lemma first_occurrences_snoc (l : list Z) (k : Z) :
  first_occurrences (l ++ [k])
  = if decide (k ∈ l) then first_occurrences l else first_occurrences l ++ [k].
Proof.
  induction l as [|x l IH]; simpl; [done|].
  rewrite IH. destruct (decide (k ∈ l)) as [Hin|Hin].
  - rewrite decide_True; [done | by right].
  - rewrite filter_app, filter_cons, filter_nil.
    destruct (decide (k = x)) as [->|Hne].
    + rewrite (decide_True (P := x ∈ x :: l)) by (by left).
      rewrite (decide_False (P := x <> x)) by (by intros []).
      by rewrite app_nil_r.
    + rewrite (decide_False (P := k ∈ x :: l))
        by (rewrite elem_of_cons; tauto).
      by rewrite (decide_True (P := k <> x)).
Qed.

Lemma filter_none {X : Type} (P : X -> Prop) `{forall x, Decision (P x)}
    (l : list X) :
  (forall x, x ∈ l -> ~ P x) -> filter P l = [].
Proof.
  induction l as [|x l IH]; intros Hl; [done|].
  rewrite filter_cons, decide_False by (apply Hl; by left).
  apply IH. intros y Hy. apply Hl. by right.
Qed.

Lemma group_params_by_storage_buckets (ps : list Param) :
  group_params_by_storage ps = buckets_of ps.
Proof.
  unfold group_params_by_storage.
  induction ps as [|p ps IH] using rev_ind; [done|].
  rewrite fold_left_app. simpl. rewrite IH. unfold buckets_of.
  rewrite dict_get_map, dict_setitem_map by apply NoDup_first_occurrences.
  rewrite map_app. simpl. rewrite first_occurrences_snoc.
  destruct (decide (storage_ptr p ∈ map storage_ptr ps)) as [Hin|Hin];
    destruct (decide (storage_ptr p ∈ first_occurrences (map storage_ptr ps)))
      as [Hin'|Hin'];
    try (exfalso; apply Hin'; by apply elem_of_first_occurrences);
    try (exfalso; apply Hin; by apply elem_of_first_occurrences).
  - apply map_ext_in. intros k Hk. f_equal.
    rewrite filter_app, filter_cons, filter_nil.
    destruct (decide (k = storage_ptr p)) as [Heq|Hne].
    + subst k. by rewrite (decide_True (P := storage_ptr p = storage_ptr p)).
    + rewrite (decide_False (P := storage_ptr p = k)) by congruence.
      by rewrite app_nil_r.
  - rewrite map_app. simpl. f_equal.
    + apply map_ext_in. intros k Hk. f_equal.
      rewrite filter_app, filter_cons, filter_nil.
      rewrite (decide_False (P := storage_ptr p = k)); [by rewrite app_nil_r|].
      intros Heq. apply Hin. rewrite Heq.
      by apply elem_of_first_occurrences, list_elem_of_In.
    + do 2 f_equal. rewrite filter_app, filter_cons, filter_nil.
      rewrite (decide_True (P := storage_ptr p = storage_ptr p)) by done.
      rewrite filter_none; [done|].
      intros q Hq Heq. apply Hin.
      rewrite <- Heq. apply list_elem_of_fmap. by exists q.
Qed.

Lemma concat_values_setitem (d : dict (list Param)) (k : Z) (p : Param) :
  Permutation
    (concat (dict_values (dict_setitem d k (dict_get d k [] ++ [p]))))
    (concat (dict_values d) ++ [p]).
Proof.
  induction d as [|[k' v] d IH]; simpl; [done|].
  destruct (k' =? k); simpl.
  - rewrite <- !app_assoc. apply Permutation_app_head, Permutation_app_comm.
  - rewrite IH. by rewrite app_assoc.
Qed.

Lemma group_params_by_storage_Permutation (ps : list Param) :
  Permutation (concat (dict_values (group_params_by_storage ps))) ps.
Proof.
  unfold group_params_by_storage.
  induction ps as [|p ps IH] using rev_ind; [done|].
  rewrite fold_left_app. simpl. by rewrite concat_values_setitem, IH.
Qed.

Lemma fold_left_extend {X Y : Type} (f : X -> result (list Y))
    (l : list X) (acc : result (list Y)) :
  fold_left
    (fun acc x => (do a <- acc; do r <- f x; Ok (a ++ r))%result) l acc
  = (do a <- acc; do rss <- mapM f l; Ok (a ++ concat rss))%result.
Proof.
  revert acc. induction l as [|x l IH]; intros acc; simpl.
  - destruct acc; simpl; [|done..]. by rewrite app_nil_r.
  - rewrite IH. destruct acc as [a| |]; simpl; [|done..].
    destruct (f x) as [r| |]; simpl; [|done..].
    destruct (mapM f l) as [rss| |]; simpl; [|done..].
    by rewrite app_assoc.
Qed.

Lemma fuse_group_mapM (c : list Param -> result Param) (ps : list Param) :
  fuse_group c ps
  = (do rss <- mapM (reorder_params c)
                 (dict_values (group_params_by_storage ps));
     Ok (concat rss))%result.
Proof. unfold fuse_group. by rewrite fold_left_extend. Qed.

Lemma step_groups_Forall2 {O : Type} (c : list Param -> result Param)
    (groups groups' : list (ParamGroup O)) :
  step_groups c groups = (groups', Ok tt) <->
  Forall2 (fun g g' => fuse_group c (params g) = Ok (params g') /\
                       options g' = options g) groups groups'.
Proof.
  revert groups'. induction groups as [|g groups IH]; intros groups'; simpl.
  - split.
    + intros [= <-]. constructor.
    + by intros ->%Forall2_nil_inv_l.
  - destruct (fuse_group c (params g)) as [fused| |] eqn:Hf.
    + destruct (step_groups c groups) as [rest' r] eqn:Hs. split.
      * intros [= <- ->]. constructor; [done|]. by apply IH.
      * intros (g' & rest & [Hg Ho] & Hrest & ->)%Forall2_cons_inv_l.
        apply IH in Hrest. destruct g' as [ps' o']. simpl in *.
        rewrite Hf in Hg. by simplify_eq.
    + split; [done|].
      intros (g' & rest & [Hg Ho] & Hrest & ->)%Forall2_cons_inv_l.
      by rewrite Hf in Hg.
    + split; [done|].
      intros (g' & rest & [Hg Ho] & Hrest & ->)%Forall2_cons_inv_l.
      by rewrite Hf in Hg.
Qed.

(** C10.  [group_params_by_storage] partitions its input: there is one
    bucket per distinct data storage pointer, the buckets appear in the
    order in which their pointer is first met, every parameter of the input
    lies in exactly one bucket (the one of its storage pointer) and the
    buckets together hold the input's parameters, each as often as the input
    does.  [FusedOptimizer.step] computes this partition from the value
    [group["params"]] has when it is called and replaces it by the runs of
    [reorder_params] over the buckets, taken in bucket order; nothing but
    the current parameter list enters the result. *)
Theorem group_params_by_storage_partition (ps : list Param) :
  let d := group_params_by_storage ps in
  d = buckets_of ps /\
  dict_keys d = first_occurrences (map storage_ptr ps) /\
  NoDup (dict_keys d) /\
  (forall p, p ∈ ps -> exists! kb, kb ∈ d /\ p ∈ kb.2) /\
  (forall k b p, (k, b) ∈ d -> p ∈ b <-> p ∈ ps /\ storage_ptr p = k) /\
  Permutation (concat (dict_values d)) ps /\
  (forall c : list Param -> result Param,
      fuse_group c ps
      = (do rss <- mapM (reorder_params c) (dict_values d);
         Ok (concat rss))%result) /\
  (forall (O : Type) (c : list Param -> result Param)
          (groups groups' : list (ParamGroup O)),
      step_groups c groups = (groups', Ok tt) <->
      Forall2 (fun g g' => fuse_group c (params g) = Ok (params g') /\
                           options g' = options g) groups groups').
Proof.
  intros d. unfold d. rewrite group_params_by_storage_buckets.
  assert (forall k b, (k, b) ∈ buckets_of ps ->
            k ∈ map storage_ptr ps /\
            b = filter (fun p => storage_ptr p = k) ps) as Hd.
  { intros k b (k' & [= -> ->] & Hk)%list_elem_of_fmap.
    split; [|done]. by apply elem_of_first_occurrences. }
  assert (dict_keys (buckets_of ps) = first_occurrences (map storage_ptr ps))
    as Hkeys.
  { unfold dict_keys, buckets_of. rewrite map_map. simpl. apply map_id. }
  split; [done|]. split; [done|].
  split; [rewrite Hkeys; apply NoDup_first_occurrences|].
  split; [|split; [|split; [|split]]].
  - intros p Hp.
    exists (storage_ptr p, filter (fun q => storage_ptr q = storage_ptr p) ps).
    split.
    + split; [|by apply list_elem_of_filter].
      apply list_elem_of_fmap. exists (storage_ptr p). split; [done|].
      apply elem_of_first_occurrences, list_elem_of_fmap. by exists p.
    + intros [k b] [Hkb Hpb]. destruct (Hd k b Hkb) as [_ ->].
      simpl in Hpb. apply list_elem_of_filter in Hpb as [<- _]. done.
  - intros k b p Hkb. destruct (Hd k b Hkb) as [_ ->].
    rewrite list_elem_of_filter. tauto.
  - rewrite <- group_params_by_storage_buckets.
    apply group_params_by_storage_Permutation.
  - intros c. rewrite <- group_params_by_storage_buckets. apply fuse_group_mapM.
  - intros O c groups groups'. apply step_groups_Forall2.
Qed.
End GroupFacts.

(** ** Processes: the monad *)

Section MonadFacts.
Import Comm.
Context {elem : Type}.
Abbreviation Process := (@Process elem).
Abbreviation M := (@M elem).

Lemma bind_Ok_inv {X Y : Type} (m : M X) (f : X -> M Y)
    (p p1 : Process) (y : Y) :
  bind m f p = (p1, Ok y) ->
  exists p' x, m p = (p', Ok x) /\ f x p' = (p1, Ok y).
Proof.
  unfold bind. destruct (m p) as [p' [x|e|k]]; [|done..]. intros H. by exists p', x.
Qed.

Lemma bind_Ok {X Y : Type} (m : M X) (f : X -> M Y) (p p' : Process) (x : X) :
  m p = (p', Ok x) -> bind m f p = f x p'.
Proof. unfold bind. by intros ->. Qed.

Lemma bind_Raise {X Y : Type} (m : M X) (f : X -> M Y)
    (p p' : Process) (e : exn) :
  m p = (p', Raise e) -> bind m f p = (p', Raise e).
Proof. unfold bind. by intros ->. Qed.

Lemma bind_Blocked {X Y : Type} (m : M X) (f : X -> M Y)
    (p p' : Process) (k : string) :
  m p = (p', Blocked k) -> bind m f p = (p', Blocked k).
Proof. unfold bind. by intros ->. Qed.
End MonadFacts.
(** ** Global state: initialization and accessors *)

Section GlobalStateFacts.
Import Comm.
Context {elem : Type} (floating : bool) (true_divide : elem -> Z -> elem).
Abbreviation Process := (@Process elem).
Local Open Scope Z_scope.

Lemma init_process_group_initialized (p : Process) :
  is_Some (_global_state p) ->
  init_process_group p = (p, Raise RepeatedInitializationError).
Proof.
  intros Hinit. unfold init_process_group, bind, is_initialized, gets.
  by rewrite bool_decide_eq_true_2.
Qed.

Lemma init_process_group_Ok (p p1 : Process) :
  init_process_group p = (p1, Ok tt) -> is_Some (_global_state p1).
Proof.
  unfold init_process_group. intros H.
  apply bind_Ok_inv in H as (p' & b & _ & H). destruct b; [done|].
  apply bind_Ok_inv in H as (? & ? & _ & H).
  apply bind_Ok_inv in H as (? & ? & _ & H).
  apply bind_Ok_inv in H as (? & ? & _ & H).
  apply bind_Ok_inv in H as (? & ? & _ & H).
  apply bind_Ok_inv in H as (? & ? & _ & H).
  apply bind_Ok_inv in H as (p2 & gs & _ & H).
  unfold modify in H. injection H as <-. by eexists.
Qed.

(** C7.  Once a call of [init_process_group] has succeeded, the next call
    in the same process raises [RepeatedInitializationError] and leaves the
    process (the module globals, the store, the trace of effects) exactly
    as it was. *)
Theorem init_process_group_repeated (p p1 : Process) :
  init_process_group p = (p1, Ok tt) ->
  is_initialized p1 = (p1, Ok true) /\
  init_process_group p1 = (p1, Raise RepeatedInitializationError).
Proof.
  intros H%init_process_group_Ok. split.
  - unfold is_initialized, gets. by rewrite bool_decide_eq_true_2.
  - by apply init_process_group_initialized.
Qed.

Lemma for_each_assert_not_cpu_Ok (p : Process) (msg : string) (ts : list nat) :
  Forall (on_cuda p) ts ->
  for_each ts (fun t => assert_not_cpu t msg) p = (p, Ok tt).
Proof.
  induction 1 as [|t ts (v & Hv & Hd) _ IH]; simpl; [done|].
  unfold bind at 1. unfold assert_not_cpu, deref, bind, gets. rewrite Hv.
  unfold ret, assert_. rewrite Hd. simpl. exact IH.
Qed.

Lemma for_each_assert_not_cpu_Raise (p : Process) (msg : string) (ts : list nat) :
  Forall (allocated p) ts -> Exists (on_cpu p) ts ->
  for_each ts (fun t => assert_not_cpu t msg) p
  = (p, Raise (AssertionError msg)).
Proof.
  induction 1 as [|t ts [v Hv] _ IH]; intros Hex; [by inversion Hex|].
  simpl. unfold bind at 1. unfold assert_not_cpu, deref, bind, gets.
  rewrite Hv. unfold ret, assert_. destruct (is_cpu (device v)) eqn:Hd; simpl.
  - done.
  - apply IH. inversion Hex as [? ? (v' & Hv' & Hd')|]; subst; [|done].
    rewrite Hv in Hv'. injection Hv' as <-. congruence.
Qed.

Lemma assert_not_cpu_Ok (p : Process) (msg : string) (t : nat) :
  on_cuda p t -> assert_not_cpu t msg p = (p, Ok tt).
Proof.
  intros (v & Hv & Hd). unfold assert_not_cpu, deref, bind, gets.
  rewrite Hv. unfold ret, assert_. by rewrite Hd.
Qed.

Lemma assert_not_cpu_Raise (p : Process) (msg : string) (t : nat) :
  on_cpu p t -> assert_not_cpu t msg p = (p, Raise (AssertionError msg)).
Proof.
  intros (v & Hv & Hd). unfold assert_not_cpu, deref, bind, gets.
  rewrite Hv. unfold ret, assert_. by rewrite Hd.
Qed.

Lemma resolve_comm_uninitialized (p : Process) :
  _global_state p = None -> resolve_comm None p = (p, Raise AttributeError).
Proof.
  intros Hn. unfold resolve_comm, bind, _get_global_state, gets. by rewrite Hn.
Qed.

(** C8 (as amended).  Before initialization [_get_global_state] returns
    [None] and [is_initialized] returns [False]; the accessors that read a
    field of the global state, and the collectives that have to look the
    global communicator up for tensors that pass the device check, raise
    [AttributeError], leaving the process as it was. *)
Theorem uninitialized_AttributeError (p : Process) :
  _global_state p = None ->
  _get_global_state p = (p, Ok None) /\
  is_initialized p = (p, Ok false) /\
  get_bagua_hyperparameters p = (p, Raise AttributeError) /\
  get_hyperparameters_service_client p = (p, Raise AttributeError) /\
  (forall t root, on_cuda p t ->
     broadcast t root None p = (p, Raise AttributeError)) /\
  (forall t average, on_cuda p t ->
     allreduce floating true_divide t average None p = (p, Raise AttributeError)) /\
  (forall ts root, Forall (on_cuda p) ts ->
     broadcast_coalesced ts root None p = (p, Raise AttributeError)) /\
  (forall ts average, Forall (on_cuda p) ts ->
     allreduce_coalesced floating true_divide ts None average p
     = (p, Raise AttributeError)).
Proof.
  intros Hn.
  split; [unfold _get_global_state, gets; by rewrite Hn|].
  split.
  { unfold is_initialized, gets. rewrite bool_decide_eq_false_2; [done|].
    rewrite Hn. by intros [? ?]. }
  split; [unfold get_bagua_hyperparameters, bind, gets; by rewrite Hn|].
  split; [unfold get_hyperparameters_service_client, bind, gets; by rewrite Hn|].
  split; [|split; [|split]].
  - intros t root Ht. unfold broadcast.
    rewrite (bind_Ok _ _ _ _ _ (assert_not_cpu_Ok p _ t Ht)).
    by rewrite (bind_Raise _ _ _ _ _ (resolve_comm_uninitialized p Hn)).
  - intros t average Ht. unfold allreduce.
    rewrite (bind_Ok _ _ _ _ _ (assert_not_cpu_Ok p _ t Ht)).
    by rewrite (bind_Raise _ _ _ _ _ (resolve_comm_uninitialized p Hn)).
  - intros ts root Hts. unfold broadcast_coalesced.
    rewrite (bind_Ok _ _ _ _ _ (for_each_assert_not_cpu_Ok p _ ts Hts)).
    by rewrite (bind_Raise _ _ _ _ _ (resolve_comm_uninitialized p Hn)).
  - intros ts average Hts. unfold allreduce_coalesced.
    rewrite (bind_Ok _ _ _ _ _ (for_each_assert_not_cpu_Ok p _ ts Hts)).
    by rewrite (bind_Raise _ _ _ _ _ (resolve_comm_uninitialized p Hn)).
Qed.

(** C6 (as amended).  A broadcast or all-reduce call, single-tensor or
    coalesced, with an input tensor on the host raises [AssertionError]
    (from the [assert] on the device, the first statement of each call) and
    leaves the process as it was: nothing is recorded, waited for or
    communicated. *)
Theorem collectives_reject_cpu (p : Process) :
  (forall t root comm, on_cpu p t ->
     broadcast t root comm p
     = (p, Raise (AssertionError "input tensor must be CUDA and dense"))) /\
  (forall t average comm, on_cpu p t ->
     allreduce floating true_divide t average comm p
     = (p, Raise (AssertionError "input tensor must be CUDA and dense"))) /\
  (forall ts root comm, Forall (allocated p) ts -> Exists (on_cpu p) ts ->
     broadcast_coalesced ts root comm p
     = (p, Raise (AssertionError "input tensors must be CUDA and dense"))) /\
  (forall ts average comm, Forall (allocated p) ts -> Exists (on_cpu p) ts ->
     allreduce_coalesced floating true_divide ts comm average p
     = (p, Raise (AssertionError "input tensors must be CUDA and dense"))).
Proof.
  split; [|split; [|split]].
  - intros t root comm Ht. unfold broadcast.
    by rewrite (bind_Raise _ _ _ _ _ (assert_not_cpu_Raise p _ t Ht)).
  - intros t average comm Ht. unfold allreduce.
    by rewrite (bind_Raise _ _ _ _ _ (assert_not_cpu_Raise p _ t Ht)).
  - intros ts root comm Ha Hc. unfold broadcast_coalesced.
    by rewrite (bind_Raise _ _ _ _ _
                  (for_each_assert_not_cpu_Raise p _ ts Ha Hc)).
  - intros ts average comm Ha Hc. unfold allreduce_coalesced.
    by rewrite (bind_Raise _ _ _ _ _
                  (for_each_assert_not_cpu_Raise p _ ts Ha Hc)).
Qed.
End GlobalStateFacts.

Section GlobalStateExamples.
Import Comm.
Local Open Scope Z_scope.

Lemma init_process_group_repeated_witness :
  exists p1,
    init_process_group single_process = (p1, Ok tt) /\
    init_process_group p1 = (p1, Raise RepeatedInitializationError).
Proof.
  exists (fst (init_process_group single_process)).
  assert (init_process_group single_process
          = (fst (init_process_group single_process), Ok tt)) as H
    by (vm_compute; reflexivity).
  split; [exact H|].
  exact (proj2 (init_process_group_repeated _ _ H)).
Defined.

Lemma uninitialized_AttributeError_witness :
  get_bagua_hyperparameters single_process_with_tensors
  = (single_process_with_tensors, Raise AttributeError) /\
  allreduce false Z.div 1 true None single_process_with_tensors
  = (single_process_with_tensors, Raise AttributeError).
Proof.
  destruct (uninitialized_AttributeError false Z.div single_process_with_tensors
              eq_refl) as (_ & _ & Hh & _ & _ & Ha & _).
  split; [exact Hh|]. apply Ha.
  exists device_tensor. split; reflexivity.
Defined.

(** C8 (as stated) fails: before initialization [_get_global_state] does
    not fail at all, and [get_bagua_hyperparameters] and a collective
    without communicator fail with [AttributeError], not with
    [NotInitializedError]. *)
Lemma uninitialized_not_NotInitializedError :
  _global_state single_process_with_tensors = None /\
  snd (_get_global_state single_process_with_tensors) = Ok None /\
  snd (get_bagua_hyperparameters single_process_with_tensors)
  <> Raise NotInitializedError /\
  snd (broadcast 1 0 None single_process_with_tensors)
  <> Raise NotInitializedError.
Proof. repeat split; vm_compute; discriminate. Qed.

Lemma collectives_reject_cpu_witness :
  broadcast_coalesced [1; 0]%nat 0 None single_process_with_tensors
  = (single_process_with_tensors,
     Raise (AssertionError "input tensors must be CUDA and dense")).
Proof.
  apply (collectives_reject_cpu false Z.div single_process_with_tensors).
  - repeat constructor; by eexists.
  - apply Exists_cons_tl, Exists_cons_hd. exists host_tensor. split; reflexivity.
Defined.

(** C6 (as stated) fails: the error raised for a host tensor is
    [AssertionError], not [InvalidDeviceError]. *)
Lemma collectives_not_InvalidDeviceError :
  on_cpu single_process_with_tensors 0 /\
  snd (broadcast 0 0 None single_process_with_tensors)
  = Raise (AssertionError "input tensor must be CUDA and dense") /\
  snd (allreduce false Z.div 0 true None single_process_with_tensors)
  <> Raise InvalidDeviceError.
Proof.
  split; [exists host_tensor; split; reflexivity|].
  split; [reflexivity|]. vm_compute. discriminate.
Qed.
End GlobalStateExamples.

(** ** Rendezvous and communicator topology *)

Section TopologyFacts.
Import Comm.
Context {elem : Type}.
Abbreviation Process := (@Process elem).
Local Open Scope Z_scope.

Lemma device_id_or_local_rank_Ok (p : Process) (device_id : option Z) :
  device_id_or_local_rank device_id p
  = (p, Ok (default (LOCAL_RANK (env p)) device_id)).
Proof. by destruct device_id. Qed.

(** The store argument: the default store is there once [torch.distributed]
    is initialized. *)
Lemma store_argument_Ok (p : Process) (store : option StoreRef) :
  (store = None -> dist_initialized p = true) ->
  match store with
  | None => _get_default_store
  | Some s => ret s
  end p = (p, Ok DefaultStore).
Proof.
  intros Hd. destruct store as [[]|]; [done|].
  unfold _get_default_store, bind, gets. by rewrite Hd.
Qed.

Lemma gen_nccl_unique_id_no_store (p : Process) (comm_type : string)
    (root : Z) :
  dist_initialized p = false ->
  gen_nccl_unique_id comm_type root None p = (p, Raise DistNotInitialized).
Proof.
  intros Hd. unfold gen_nccl_unique_id, _get_default_store, bind, gets.
  by rewrite Hd.
Qed.

(** The root generates an identifier and publishes it. *)
Lemma gen_nccl_unique_id_root (p : Process) (comm_type : string) (root : Z)
    (store : option StoreRef) :
  (store = None -> dist_initialized p = true) ->
  RANK (env p) = root ->
  let key := unique_id_key comm_type root in
  let idstr := unique_ids p (generated p) in
  gen_nccl_unique_id comm_type root store p
  = (mkProcess (env p) (_global_state p) (_autotune_server p)
       (dist_initialized p) (<[key := idstr]> (default_store p)) (tensors p)
       (storages p) (unique_ids p) (S (generated p)) (comm_new p) (wire p)
       ((trace p ++ [EvGenerateId idstr]) ++ [EvStoreSet key idstr]),
     Ok idstr).
Proof.
  intros Hd Hr. unfold gen_nccl_unique_id.
  rewrite (bind_Ok _ _ _ _ _ (store_argument_Ok p store Hd)).
  unfold bind, get_rank, gets. simpl.
  by rewrite (proj2 (Z.eqb_eq _ _) Hr).
Qed.

(** Every other rank fetches it, and waits when it is not there yet. *)
Lemma gen_nccl_unique_id_fetch (p : Process) (comm_type : string) (root : Z)
    (store : option StoreRef) (idstr : string) :
  (store = None -> dist_initialized p = true) ->
  RANK (env p) <> root ->
  default_store p !! unique_id_key comm_type root = Some idstr ->
  gen_nccl_unique_id comm_type root store p
  = (with_trace (trace p ++ [EvStoreGet (unique_id_key comm_type root)]) p,
     Ok idstr).
Proof.
  intros Hd Hr Hs. unfold gen_nccl_unique_id.
  rewrite (bind_Ok _ _ _ _ _ (store_argument_Ok p store Hd)).
  unfold bind, get_rank, gets. simpl.
  rewrite (proj2 (Z.eqb_neq _ _) Hr). unfold store_get, bind, emit, modify, gets.
  simpl. by rewrite Hs.
Qed.

Lemma gen_nccl_unique_id_blocked (p : Process) (comm_type : string) (root : Z)
    (store : option StoreRef) :
  (store = None -> dist_initialized p = true) ->
  RANK (env p) <> root ->
  default_store p !! unique_id_key comm_type root = None ->
  gen_nccl_unique_id comm_type root store p
  = (with_trace (trace p ++ [EvStoreGet (unique_id_key comm_type root)]) p,
     Blocked (unique_id_key comm_type root)).
Proof.
  intros Hd Hr Hs. unfold gen_nccl_unique_id.
  rewrite (bind_Ok _ _ _ _ _ (store_argument_Ok p store Hd)).
  unfold bind, get_rank, gets. simpl.
  rewrite (proj2 (Z.eqb_neq _ _) Hr). unfold store_get, bind, emit, modify, gets.
  simpl. by rewrite Hs.
Qed.

Lemma gen_nccl_unique_id_ready (p : Process) (comm_type : string) (root : Z)
    (store : option StoreRef) :
  (store = None -> dist_initialized p = true) ->
  rendezvous_ready p comm_type root ->
  exists p' idstr,
    gen_nccl_unique_id comm_type root store p = (p', Ok idstr) /\
    rendezvous_frame p p'.
Proof.
  intros Hd Hready. destruct (decide (RANK (env p) = root)) as [Hr|Hr].
  - eexists _, _. split; [by apply gen_nccl_unique_id_root|done].
  - destruct Hready as [?|[idstr Hs]]; [done|].
    eexists _, _. split; [by apply gen_nccl_unique_id_fetch|done].
Qed.

Lemma construct_and_log {X : Type} (p : Process)
    (rank nranks device_id : Z) (stream : Stream) (idstr : string)
    (k : Communicator -> X) :
  bind (BaguaSingleCommunicatorPy rank nranks device_id stream idstr)
    (fun comm => bind (logging_debug_ranks comm) (fun _ => ret (k comm))) p
  = let c := mkComm rank nranks device_id stream idstr stream in
    (fst (constructed p c),
     match snd (constructed p c) with
     | Ok c => Ok (k c)
     | Raise e => Raise e
     | Blocked key => Blocked key
     end).
Proof.
  unfold BaguaSingleCommunicatorPy, logging_debug_ranks, dist_get_rank,
    get_rank, constructed, bind, emit, modify, gets, ret, raise, with_trace.
  simpl. destruct (comm_new p _); [done|].
  by destruct (dist_initialized p).
Qed.

(** The three constructors after their rendezvous. *)
Lemma init_bagua_inter_communicator_after (p p1 : Process) (stream : Stream)
    (leader_rank : Z) (store : option StoreRef) (device_id : option Z)
    (idstr : string) :
  gen_nccl_unique_id "bagua_inter_comm" leader_rank store p = (p1, Ok idstr) ->
  env p1 = env p ->
  LOCAL_SIZE (env p) <> 0 ->
  init_bagua_inter_communicator stream leader_rank store device_id p
  = if RANK (env p) mod LOCAL_SIZE (env p) =? leader_rank then
      let c := mkComm (RANK (env p) / LOCAL_SIZE (env p))
                 (WORLD_SIZE (env p) / LOCAL_SIZE (env p))
                 (default (LOCAL_RANK (env p)) device_id) stream idstr stream in
      (fst (constructed p1 c),
       match snd (constructed p1 c) with
       | Ok c => Ok (Some c)
       | Raise e => Raise e
       | Blocked key => Blocked key
       end)
    else (p1, Ok None).
Proof.
  intros Hgen Henv HL. unfold init_bagua_inter_communicator.
  rewrite (bind_Ok _ _ _ _ _ (device_id_or_local_rank_Ok p device_id)).
  rewrite (bind_Ok _ _ _ _ _ Hgen).
  unfold bind at 1 2 3. unfold get_rank at 1, get_local_size at 1, gets, lift,
    py_mod.
  rewrite Henv, (proj2 (Z.eqb_neq _ _) HL).
  destruct (RANK (env p) mod LOCAL_SIZE (env p) =? leader_rank); simpl;
    [|done].
  unfold bind at 1 2 3 4 5 6. unfold get_rank, get_local_size, get_world_size,
    gets, lift, py_floordiv.
  rewrite Henv, (proj2 (Z.eqb_neq _ _) HL).
  apply (construct_and_log p1 _ _ _ stream idstr Some).
Qed.

Lemma init_bagua_intra_communicator_after (p p1 : Process) (stream : Stream)
    (store : option StoreRef) (device_id : option Z) (idstr : string) :
  gen_nccl_unique_id "bagua_intra_comm"
    (RANK (env p) / LOCAL_SIZE (env p) * LOCAL_SIZE (env p)) store p
  = (p1, Ok idstr) ->
  env p1 = env p ->
  LOCAL_SIZE (env p) <> 0 ->
  init_bagua_intra_communicator stream store device_id p
  = constructed p1
      (mkComm (RANK (env p) mod LOCAL_SIZE (env p)) (LOCAL_SIZE (env p))
         (default (LOCAL_RANK (env p)) device_id) stream idstr stream).
Proof.
  intros Hgen Henv HL. unfold init_bagua_intra_communicator.
  rewrite (bind_Ok _ _ _ _ _ (device_id_or_local_rank_Ok p device_id)).
  unfold bind at 1 2 3 4. unfold get_rank at 1, get_local_size at 1 2, gets,
    lift, py_floordiv.
  rewrite (proj2 (Z.eqb_neq _ _) HL).
  rewrite (bind_Ok _ _ _ _ _ Hgen).
  unfold bind at 1 2 3 4. unfold get_rank, get_local_size, gets, lift, py_mod.
  rewrite Henv, (proj2 (Z.eqb_neq _ _) HL).
  rewrite (construct_and_log p1 _ _ _ stream idstr (fun c => c)).
  simpl. unfold constructed. simpl.
  destruct (comm_new p1 _); [done|]. by destruct (dist_initialized p1).
Qed.

Lemma init_bagua_communicator_after (p p1 : Process) (stream : Stream)
    (store : option StoreRef) (device_id : option Z) (idstr : string) :
  gen_nccl_unique_id "bagua_global_comm" 0 store p = (p1, Ok idstr) ->
  env p1 = env p ->
  init_bagua_communicator stream store device_id p
  = constructed p1
      (mkComm (RANK (env p)) (WORLD_SIZE (env p))
         (default (LOCAL_RANK (env p)) device_id) stream idstr stream).
Proof.
  intros Hgen Henv. unfold init_bagua_communicator.
  rewrite (bind_Ok _ _ _ _ _ (device_id_or_local_rank_Ok p device_id)).
  rewrite (bind_Ok _ _ _ _ _ Hgen).
  unfold bind at 1 2. unfold get_rank, get_world_size, gets.
  rewrite Henv.
  rewrite (construct_and_log p1 _ _ _ stream idstr (fun c => c)).
  simpl. unfold constructed. simpl.
  destruct (comm_new p1 _); [done|]. by destruct (dist_initialized p1).
Qed.

Lemma constructed_Ok (p : Process) (c : Communicator) :
  dist_initialized p = true -> comm_new p c = None ->
  constructed p c = (with_trace (trace p ++ [EvCommInit c]) p, Ok c).
Proof. intros Hd Hc. unfold constructed. by rewrite Hc, Hd. Qed.

Lemma init_bagua_inter_communicator_ready (p : Process) (stream : Stream)
    (leader_rank : Z) (store : option StoreRef) (device_id : option Z) :
  dist_initialized p = true ->
  LOCAL_SIZE (env p) <> 0 ->
  rendezvous_ready p "bagua_inter_comm" leader_rank ->
  exists p' r,
    init_bagua_inter_communicator stream leader_rank store device_id p
    = (p', r) /\
    (RANK (env p) mod LOCAL_SIZE (env p) = leader_rank ->
     builds p (RANK (env p) / LOCAL_SIZE (env p))
       (WORLD_SIZE (env p) / LOCAL_SIZE (env p)) ->
     exists c, r = Ok (Some c) /\
       rank c = RANK (env p) / LOCAL_SIZE (env p) /\
       nranks c = WORLD_SIZE (env p) / LOCAL_SIZE (env p)) /\
    (RANK (env p) mod LOCAL_SIZE (env p) <> leader_rank -> r = Ok None).
Proof.
  intros Hd HL Hready.
  destruct (gen_nccl_unique_id_ready p _ _ store (fun _ => Hd) Hready)
    as (p1 & idstr & Hgen & Henv & Hnew & Hdist).
  rewrite (init_bagua_inter_communicator_after p p1 stream leader_rank store
             device_id idstr Hgen Henv HL).
  destruct (Z.eqb_spec (RANK (env p) mod LOCAL_SIZE (env p)) leader_rank)
    as [Hm|Hm].
  - eexists _, _. split; [reflexivity|]. split; [|done].
    intros _ Hb. rewrite constructed_Ok.
    + by eexists.
    + by rewrite Hdist.
    + rewrite Hnew. apply Hb.
  - eexists _, _. split; [reflexivity|]. split; done.
Qed.

Lemma init_bagua_intra_communicator_ready (p : Process) (stream : Stream)
    (store : option StoreRef) (device_id : option Z) :
  dist_initialized p = true ->
  LOCAL_SIZE (env p) <> 0 ->
  rendezvous_ready p "bagua_intra_comm"
    (RANK (env p) / LOCAL_SIZE (env p) * LOCAL_SIZE (env p)) ->
  builds p (RANK (env p) mod LOCAL_SIZE (env p)) (LOCAL_SIZE (env p)) ->
  exists p' c,
    init_bagua_intra_communicator stream store device_id p = (p', Ok c) /\
    rank c = RANK (env p) mod LOCAL_SIZE (env p) /\
    nranks c = LOCAL_SIZE (env p).
Proof.
  intros Hd HL Hready Hb.
  destruct (gen_nccl_unique_id_ready p _ _ store (fun _ => Hd) Hready)
    as (p1 & idstr & Hgen & Henv & Hnew & Hdist).
  rewrite (init_bagua_intra_communicator_after p p1 stream store device_id
             idstr Hgen Henv HL).
  rewrite constructed_Ok;
    [by eexists _, _|by rewrite Hdist|rewrite Hnew; apply Hb].
Qed.

Lemma init_bagua_communicator_ready (p : Process) (stream : Stream)
    (store : option StoreRef) (device_id : option Z) :
  dist_initialized p = true ->
  rendezvous_ready p "bagua_global_comm" 0 ->
  builds p (RANK (env p)) (WORLD_SIZE (env p)) ->
  exists p' c,
    init_bagua_communicator stream store device_id p = (p', Ok c) /\
    rank c = RANK (env p) /\ nranks c = WORLD_SIZE (env p).
Proof.
  intros Hd Hready Hb.
  destruct (gen_nccl_unique_id_ready p _ _ store (fun _ => Hd) Hready)
    as (p1 & idstr & Hgen & Henv & Hnew & Hdist).
  rewrite (init_bagua_communicator_after p p1 stream store device_id
             idstr Hgen Henv).
  rewrite constructed_Ok;
    [by eexists _, _|by rewrite Hdist|rewrite Hnew; apply Hb].
Qed.

(** The library of [spec_comm_new] builds the communicators of a job whose
    world size is a multiple of the local size. *)
Lemma spec_comm_new_builds (p : Process) (rank nranks : Z) :
  comm_new p = spec_comm_new -> 0 <= rank < nranks -> builds p rank nranks.
Proof.
  intros Hnew Hr device_id stream idstr. rewrite Hnew. unfold spec_comm_new.
  simpl. rewrite (proj2 (Z.leb_le _ _)) by lia.
  by rewrite (proj2 (Z.ltb_lt _ _)) by lia.
Qed.

(** C4.  For a process of global rank R in a job of W processes, L per
    node (L not zero), on which [torch.distributed] is initialized and whose
    rendezvous can complete: when the transport library builds them, the
    intra-node communicator has rank R mod L and size L and the global
    communicator rank R and size W; the inter-node constructor returns a
    communicator of rank R div L and size W div L when R mod L is the leader
    offset, and no communicator ([None]) otherwise.  The library modelled
    from the spec builds all of them when 0 <= R < W and L > 0 divides W.
    In the job with W=8 and L=4, ranks 0 and 4 get the inter-node ranks 0
    and 1 of 2, and ranks 1, 2, 3, 5, 6, 7 get no inter-node
    communicator. *)
Theorem communicator_topology (p : Process) (stream : Stream)
    (leader_rank : Z) (store : option StoreRef) (device_id : option Z) :
  dist_initialized p = true ->
  LOCAL_SIZE (env p) <> 0 ->
  let R := RANK (env p) in
  let W := WORLD_SIZE (env p) in
  let L := LOCAL_SIZE (env p) in
  (rendezvous_ready p "bagua_intra_comm" (R / L * L) ->
   builds p (R mod L) L ->
   exists p' c,
     init_bagua_intra_communicator stream store device_id p = (p', Ok c) /\
     rank c = R mod L /\ nranks c = L) /\
  (rendezvous_ready p "bagua_global_comm" 0 ->
   builds p R W ->
   exists p' c,
     init_bagua_communicator stream store device_id p = (p', Ok c) /\
     rank c = R /\ nranks c = W) /\
  (rendezvous_ready p "bagua_inter_comm" leader_rank ->
   exists p' r,
     init_bagua_inter_communicator stream leader_rank store device_id p
     = (p', r) /\
     (R mod L = leader_rank -> builds p (R / L) (W / L) ->
      exists c, r = Ok (Some c) /\ rank c = R / L /\ nranks c = W / L) /\
     (R mod L <> leader_rank -> r = Ok None)) /\
  (comm_new p = spec_comm_new -> 0 <= R < W -> 0 < L -> W mod L = 0 ->
   builds p (R mod L) L /\ builds p R W /\ builds p (R / L) (W / L)) /\
  world_topology 8 4
  = [(0, Ok tt, Some (Some (0, 2), (0, 4), (0, 8)));
     (1, Ok tt, Some (None, (1, 4), (1, 8)));
     (2, Ok tt, Some (None, (2, 4), (2, 8)));
     (3, Ok tt, Some (None, (3, 4), (3, 8)));
     (4, Ok tt, Some (Some (1, 2), (0, 4), (4, 8)));
     (5, Ok tt, Some (None, (1, 4), (5, 8)));
     (6, Ok tt, Some (None, (2, 4), (6, 8)));
     (7, Ok tt, Some (None, (3, 4), (7, 8)))].
Proof.
  intros Hd HL R W L.
  split; [by apply init_bagua_intra_communicator_ready|].
  split; [by apply init_bagua_communicator_ready|].
  split; [by apply init_bagua_inter_communicator_ready|].
  split; [|vm_compute; reflexivity].
  intros Hnew HR HLpos Hdiv.
  split; [|split]; apply spec_comm_new_builds; try done.
  - apply Z.mod_pos_bound. lia.
  - split; [apply Z.div_pos; lia|].
    apply Z.div_lt_upper_bound; [lia|].
    replace (L * (W / L)) with W; [lia|].
    rewrite (Z.div_mod W L) at 1 by lia. lia.
Qed.

(** C5 (as amended).  The topology builder does not compare W with L: when
    W is not a multiple of L (L not zero), a process at the leader offset
    whose rendezvous completes gets as far as the constructor of the
    transport library, which it calls for a communicator of size W div L
    rounded down; what the call of [init_bagua_inter_communicator] returns
    or raises is what the library returns or raises for that communicator.
    No error of its own precedes or follows. *)
Theorem inter_communicator_truncates (p : Process) (stream : Stream)
    (leader_rank : Z) (store : option StoreRef) (device_id : option Z) :
  dist_initialized p = true ->
  LOCAL_SIZE (env p) <> 0 ->
  WORLD_SIZE (env p) mod LOCAL_SIZE (env p) <> 0 ->
  rendezvous_ready p "bagua_inter_comm" leader_rank ->
  RANK (env p) mod LOCAL_SIZE (env p) = leader_rank ->
  exists p' idstr,
    let c := mkComm (RANK (env p) / LOCAL_SIZE (env p))
               (WORLD_SIZE (env p) / LOCAL_SIZE (env p))
               (default (LOCAL_RANK (env p)) device_id) stream idstr stream in
    init_bagua_inter_communicator stream leader_rank store device_id p
    = (p', match comm_new p c with
           | None => Ok (Some c)
           | Some e => Raise e
           end) /\
    last (trace p') = Some (EvCommInit c) /\
    nranks c * LOCAL_SIZE (env p) <> WORLD_SIZE (env p).
Proof.
  intros Hd HL Hmod Hready Hleader.
  destruct (gen_nccl_unique_id_ready p _ _ store (fun _ => Hd) Hready)
    as (p1 & idstr & Hgen & Henv & Hnew & Hdist).
  rewrite (init_bagua_inter_communicator_after p p1 stream leader_rank store
             device_id idstr Hgen Henv HL).
  rewrite (proj2 (Z.eqb_eq _ _) Hleader).
  exists (with_trace
            (trace p1 ++ [EvCommInit
               (mkComm (RANK (env p) / LOCAL_SIZE (env p))
                  (WORLD_SIZE (env p) / LOCAL_SIZE (env p))
                  (default (LOCAL_RANK (env p)) device_id) stream idstr
                  stream)]) p1), idstr.
  simpl. split; [|split].
  - unfold constructed. simpl. rewrite Hnew, Hdist, Hd.
    by destruct (comm_new p _).
  - by rewrite last_snoc.
  - intros Heq. apply Hmod. rewrite <- Heq. by apply Z.mod_mul.
Qed.

(** C9.  [init_bagua_inter_communicator] starts with the rendezvous for the
    inter-node identifier: the process whose global rank is [leader_rank]
    generates the identifier and publishes it; every other process fetches
    it from the store, waiting inside [store.get] while it is not there,
    whether or not the process is an inter-node member.  Only after the
    fetch does a process that is not at the leader offset return [None],
    and does a member call the constructor, with the identifier it has
    fetched. *)
Theorem inter_communicator_rendezvous_first (p : Process) (stream : Stream)
    (leader_rank : Z) (store : option StoreRef) (device_id : option Z) :
  (store = None -> dist_initialized p = true) ->
  let key := unique_id_key "bagua_inter_comm" leader_rank in
  (RANK (env p) = leader_rank ->
   let p1 := published p key in
   let c := mkComm (RANK (env p) / LOCAL_SIZE (env p))
              (WORLD_SIZE (env p) / LOCAL_SIZE (env p))
              (default (LOCAL_RANK (env p)) device_id) stream
              (unique_ids p (generated p)) stream in
   init_bagua_inter_communicator stream leader_rank store device_id p
   = if LOCAL_SIZE (env p) =? 0 then (p1, Raise ZeroDivisionError)
     else if RANK (env p) mod LOCAL_SIZE (env p) =? leader_rank then
       (with_trace (trace p1 ++ [EvCommInit c]) p1,
        match comm_new p c with
        | Some e => Raise e
        | None =>
            if dist_initialized p then Ok (Some c)
            else Raise DistNotInitialized
        end)
     else (p1, Ok None)) /\
  (RANK (env p) <> leader_rank -> default_store p !! key = None ->
   init_bagua_inter_communicator stream leader_rank store device_id p
   = (with_trace (trace p ++ [EvStoreGet key]) p, Blocked key)) /\
  (forall idstr,
     RANK (env p) <> leader_rank -> default_store p !! key = Some idstr ->
     LOCAL_SIZE (env p) <> 0 ->
     RANK (env p) mod LOCAL_SIZE (env p) <> leader_rank ->
     init_bagua_inter_communicator stream leader_rank store device_id p
     = (with_trace (trace p ++ [EvStoreGet key]) p, Ok None)) /\
  (forall idstr,
     RANK (env p) <> leader_rank -> default_store p !! key = Some idstr ->
     LOCAL_SIZE (env p) <> 0 ->
     RANK (env p) mod LOCAL_SIZE (env p) = leader_rank ->
     let c := mkComm (RANK (env p) / LOCAL_SIZE (env p))
                (WORLD_SIZE (env p) / LOCAL_SIZE (env p))
                (default (LOCAL_RANK (env p)) device_id) stream idstr stream in
     init_bagua_inter_communicator stream leader_rank store device_id p
     = (with_trace (trace p ++ [EvStoreGet key; EvCommInit c]) p,
        match comm_new p c with
        | Some e => Raise e
        | None =>
            if dist_initialized p then Ok (Some c)
            else Raise DistNotInitialized
        end)).
Proof.
  intros Hd key. split; [|split; [|split]].
  - intros Hr p1 c.
    pose proof (gen_nccl_unique_id_root p "bagua_inter_comm" leader_rank
                  store Hd Hr) as Hgen.
    cbv zeta in Hgen. fold key in Hgen.
    change (mkProcess _ _ _ _ _ _ _ _ _ _ _ _) with p1 in Hgen.
    destruct (Z.eqb_spec (LOCAL_SIZE (env p)) 0) as [HL|HL].
    + unfold init_bagua_inter_communicator.
      rewrite (bind_Ok _ _ _ _ _ (device_id_or_local_rank_Ok p device_id)).
      rewrite (bind_Ok _ _ _ _ _ Hgen).
      unfold bind, get_rank, get_local_size, gets, lift, py_mod. simpl.
      by rewrite HL.
    + rewrite (init_bagua_inter_communicator_after p p1 stream leader_rank
                 store device_id _ Hgen eq_refl HL).
      destruct (RANK (env p) mod LOCAL_SIZE (env p) =? leader_rank); [|done].
      unfold constructed. simpl. fold c.
      destruct (comm_new p c); [done|]. by destruct (dist_initialized p).
  - intros Hr Hs. unfold init_bagua_inter_communicator.
    rewrite (bind_Ok _ _ _ _ _ (device_id_or_local_rank_Ok p device_id)).
    by rewrite (bind_Blocked _ _ _ _ _
                  (gen_nccl_unique_id_blocked p "bagua_inter_comm"
                     leader_rank store Hd Hr Hs)).
  - intros idstr Hr Hs HL Hm.
    rewrite (init_bagua_inter_communicator_after p _ stream leader_rank
               store device_id idstr
               (gen_nccl_unique_id_fetch p "bagua_inter_comm" leader_rank
                  store idstr Hd Hr Hs) eq_refl HL).
    by rewrite (proj2 (Z.eqb_neq _ _) Hm).
  - intros idstr Hr Hs HL Hm c.
    rewrite (init_bagua_inter_communicator_after p _ stream leader_rank
               store device_id idstr
               (gen_nccl_unique_id_fetch p "bagua_inter_comm" leader_rank
                  store idstr Hd Hr Hs) eq_refl HL).
    rewrite (proj2 (Z.eqb_eq _ _) Hm). unfold constructed. simpl.
    fold key. fold c. rewrite <- app_assoc. simpl.
    destruct (comm_new p c); [done|]. by destruct (dist_initialized p).
Qed.

(** X21.  The communicator constructors depend on [torch.distributed]:
    called without a store before it is initialized, each of them raises
    the error of [torch.distributed] from the lookup of the default store,
    before any rendezvous; and even with a store, a process that gets a
    communicator raises that error after the transport library has built
    it, when the log message asks [torch.distributed] for the rank. *)
Theorem communicators_need_torch_distributed (p : Process) (stream : Stream)
    (leader_rank : Z) (device_id : option Z) :
  dist_initialized p = false ->
  init_bagua_communicator stream None device_id p
  = (p, Raise DistNotInitialized) /\
  init_bagua_inter_communicator stream leader_rank None device_id p
  = (p, Raise DistNotInitialized) /\
  (LOCAL_SIZE (env p) <> 0 ->
   init_bagua_intra_communicator stream None device_id p
   = (p, Raise DistNotInitialized)) /\
  (forall s,
     rendezvous_ready p "bagua_global_comm" 0 ->
     builds p (RANK (env p)) (WORLD_SIZE (env p)) ->
     exists p' c,
       init_bagua_communicator stream (Some s) device_id p
       = (p', Raise DistNotInitialized) /\
       last (trace p') = Some (EvCommInit c) /\
       rank c = RANK (env p) /\ nranks c = WORLD_SIZE (env p)).
Proof.
  intros Hd. split; [|split; [|split]].
  - unfold init_bagua_communicator.
    rewrite (bind_Ok _ _ _ _ _ (device_id_or_local_rank_Ok p device_id)).
    by rewrite (bind_Raise _ _ _ _ _
                  (gen_nccl_unique_id_no_store p _ _ Hd)).
  - unfold init_bagua_inter_communicator.
    rewrite (bind_Ok _ _ _ _ _ (device_id_or_local_rank_Ok p device_id)).
    by rewrite (bind_Raise _ _ _ _ _
                  (gen_nccl_unique_id_no_store p _ _ Hd)).
  - intros HL. unfold init_bagua_intra_communicator.
    rewrite (bind_Ok _ _ _ _ _ (device_id_or_local_rank_Ok p device_id)).
    unfold bind at 1 2 3 4. unfold get_rank at 1, get_local_size at 1 2, gets,
      lift, py_floordiv.
    rewrite (proj2 (Z.eqb_neq _ _) HL).
    by rewrite (bind_Raise _ _ _ _ _
                  (gen_nccl_unique_id_no_store p _ _ Hd)).
  - intros s Hready Hb.
    destruct (gen_nccl_unique_id_ready p "bagua_global_comm" 0 (Some s))
      as (p1 & idstr & Hgen & Henv & Hnew & Hdist); [done|done|].
    rewrite (init_bagua_communicator_after p p1 stream (Some s) device_id
               idstr Hgen Henv).
    unfold constructed. rewrite Hnew, Hb, Hdist, Hd.
    eexists _, _. split; [reflexivity|]. simpl.
    by rewrite last_snoc.
Qed.
End TopologyFacts.

Section TopologyExamples.
Import Comm.
Local Open Scope Z_scope.

Lemma communicator_topology_witness :
  exists p' c,
    init_bagua_inter_communicator (mkStream (-1)) 0 None None rank4_of_8
    = (p', Ok (Some c)) /\
    rank c = 1 /\ nranks c = 2.
Proof.
  destruct (communicator_topology rank4_of_8 (mkStream (-1)) 0 None None
              eq_refl ltac:(discriminate))
    as (_ & _ & Hinter & Hbuilds & _).
  destruct Hinter as (p' & r & Hinit & Hsome & _).
  { right. by eexists. }
  destruct (Hbuilds eq_refl ltac:(simpl; lia) ltac:(simpl; lia) eq_refl)
    as (_ & _ & Hb).
  destruct (Hsome eq_refl Hb) as (c & -> & Hrank & Hsize).
  by exists p', c.
Defined.

Lemma inter_communicator_truncates_witness :
  exists p' c,
    init_bagua_inter_communicator (mkStream (-1)) 0 None None rank0_of_6
    = (p', Ok (Some c)) /\
    nranks c = 1 /\
    last (trace p') = Some (EvCommInit c).
Proof.
  destruct (inter_communicator_truncates rank0_of_6 (mkStream (-1)) 0 None
              None eq_refl ltac:(discriminate) ltac:(discriminate)
              (or_introl eq_refl) eq_refl)
    as (p' & idstr & Hinit & Hlast & _).
  eexists p', _. split; [exact Hinit|]. split; [reflexivity|exact Hlast].
Defined.

(** C5 (as stated) fails: rank 0 of a job with W=6 and L=4 is initialized
    without any error, with an inter-node communicator of size 1 (6 div 4),
    although 4 does not divide 6. *)
Lemma world_6_4_no_configuration_error :
  6 mod 4 <> 0 /\
  exists p',
    init_process_group (boot (job_env 6 4 0) (example_ids 0) ∅)
    = (p' : @Process Z, Ok tt) /\
    topology_of p' = Some (Some (0, 1), (0, 4), (0, 6)).
Proof.
  split; [discriminate|]. eexists. split; vm_compute; reflexivity.
Qed.

Lemma inter_communicator_rendezvous_first_witness :
  init_bagua_inter_communicator (mkStream (-1)) 0 None None rank1_of_8
  = (with_trace [EvStoreGet "bagua_inter_comm-0-unique_id"] rank1_of_8,
     Blocked "bagua_inter_comm-0-unique_id") /\
  init_bagua_inter_communicator (mkStream (-1)) 0 None None rank4_of_8
  = (with_trace
       [EvStoreGet "bagua_inter_comm-0-unique_id";
        EvCommInit (mkComm 1 2 0 (mkStream (-1)) "nccl-id-0-0" (mkStream (-1)))]
       rank4_of_8,
     Ok (Some (mkComm 1 2 0 (mkStream (-1)) "nccl-id-0-0" (mkStream (-1))))).
Proof.
  split.
  - destruct (inter_communicator_rendezvous_first rank1_of_8 (mkStream (-1)) 0
                None None (fun _ => eq_refl)) as (_ & Hblocked & _).
    apply Hblocked; [discriminate|reflexivity].
  - destruct (inter_communicator_rendezvous_first rank4_of_8 (mkStream (-1)) 0
                None None (fun _ => eq_refl)) as (_ & _ & _ & Hmember).
    apply (Hmember "nccl-id-0-0"); [discriminate|reflexivity|discriminate|
                                     reflexivity].
Defined.

(** Rank 4 before [torch.distributed] is initialized: without a store the
    global constructor raises at once; with the store it raises after the
    library has built the communicator of rank 4 of 8. *)
Lemma communicators_need_torch_distributed_witness :
  init_bagua_communicator (mkStream (-1)) None None rank4_of_8_before_dist
  = (rank4_of_8_before_dist, Raise DistNotInitialized) /\
  exists p' c,
    init_bagua_communicator (mkStream (-1)) (Some DefaultStore) None
      rank4_of_8_before_dist = (p', Raise DistNotInitialized) /\
    last (trace p') = Some (EvCommInit c) /\ rank c = 4 /\ nranks c = 8.
Proof.
  destruct (communicators_need_torch_distributed rank4_of_8_before_dist
              (mkStream (-1)) 0 None eq_refl) as (Hnone & _ & _ & Hstore).
  split; [exact Hnone|].
  apply (Hstore DefaultStore).
  - right. by eexists.
  - intros ? ? ?. reflexivity.
Defined.
End TopologyExamples.
(** ** Tensors and their storages *)

Section StorageFacts.
Import Comm.
Context {elem : Type}.
Abbreviation Process := (@Process elem).

Lemma region_Some (s : list elem) (off n : nat) (d : list elem) :
  region s off n = Some d <->
  (off + n <= length s)%nat /\ d = take n (drop off s).
Proof.
  unfold region. destruct (decide _) as [H|H].
  - split; [intros [= <-]; done|intros [_ ->]; done].
  - split; [done|intros [? _]; lia].
Qed.

Lemma region_length (s : list elem) (off n : nat) (d : list elem) :
  region s off n = Some d -> length d = n.
Proof.
  intros [H ->]%region_Some. rewrite length_take, length_drop. lia.
Qed.

Lemma splice_length (s : list elem) (off : nat) (d : list elem) :
  (off + length d <= length s)%nat -> length (splice s off d) = length s.
Proof.
  intros H. unfold splice.
  rewrite !length_app, length_take, length_drop. lia.
Qed.

(** Writing back what is there changes nothing. *)
Lemma splice_region_id (s : list elem) (off n : nat) (d : list elem) :
  region s off n = Some d -> splice s off d = s.
Proof.
  intros Hr. pose proof (region_length _ _ _ _ Hr) as Hlen.
  apply region_Some in Hr as [H ->]. unfold splice. rewrite Hlen.
  rewrite <- (drop_drop s n off), take_drop. apply take_drop.
Qed.






(** *** Tensors in a table of storages *)

Lemma contents_in_Some (ss : gmap nat (list elem)) (v : Tensor)
    (d : list elem) :
  contents_in ss v = Some d <->
  exists s, ss !! storage v = Some s /\
            region s (storage_offset v) (numel v) = Some d.
Proof.
  unfold contents_in. destruct (ss !! storage v) as [s|].
  - split; [by exists s|by intros (? & [= <-] & ?)].
  - split; [done|by intros (? & ? & ?)].
Qed.

Lemma contents_in_length (ss : gmap nat (list elem)) (v : Tensor)
    (d : list elem) :
  contents_in ss v = Some d -> length d = numel v.
Proof. intros (s & _ & Hr)%contents_in_Some. by eapply region_length. Qed.

Lemma store_in_id (ss : gmap nat (list elem)) (v : Tensor) (d : list elem) :
  contents_in ss v = Some d -> store_in ss v d = ss.
Proof.
  intros (s & Hs & Hr)%contents_in_Some. unfold store_in. rewrite Hs.
  rewrite (splice_region_id _ _ _ _ Hr). by apply insert_id.
Qed.



Lemma contents_in_store_in_is_Some (ss : gmap nat (list elem))
    (v v' : Tensor) (d : list elem) :
  is_Some (contents_in ss v) -> length d = numel v ->
  is_Some (contents_in ss v') ->
  is_Some (contents_in (store_in ss v d) v').
Proof.
  intros [d0 (s & Hs & Hr)%contents_in_Some] Hlen
         [d' (s' & Hs' & Hr')%contents_in_Some].
  apply region_Some in Hr as [Hb _]. apply region_Some in Hr' as [Hb' _].
  unfold store_in, contents_in. rewrite Hs.
  destruct (decide (storage v = storage v')) as [Heq|Hne].
  - rewrite <- Heq, lookup_insert_eq. rewrite <- Heq, Hs in Hs'.
    injection Hs' as <-. unfold region.
    rewrite splice_length by lia. rewrite decide_True by done. by eexists.
  - rewrite lookup_insert_ne, Hs' by done. unfold region.
    rewrite decide_True by done. by eexists.
Qed.




Lemma storages_agree_outside_mono (vs vs' : list Tensor)
    (ss ss' : gmap nat (list elem)) :
  (forall v, v ∈ vs -> v ∈ vs') ->
  storages_agree_outside vs ss ss' -> storages_agree_outside vs' ss ss'.
Proof.
  intros Hsub [H1 H2]. split; [done|].
  intros k j Hout. apply H2. intros v Hv. by apply Hout, Hsub.
Qed.

(** *** The scatter loop on the storages *)

Lemma write_back_same (ss : gmap nat (list elem)) (vs : list Tensor)
    (ds : list (list elem)) :
  Forall2 (fun v d => contents_in ss v = Some d) vs ds ->
  write_back ss vs ds = ss.
Proof.
  induction 1 as [|v d vs ds Hv _ IH]; simpl; [done|].
  by rewrite (store_in_id ss v d Hv).
Qed.

Lemma write_back_is_Some (ss : gmap nat (list elem)) (vs : list Tensor)
    (views : list (list elem)) (v' : Tensor) :
  Forall (fun v => is_Some (contents_in ss v)) vs ->
  Forall2 (fun v d => length d = numel v) vs views ->
  is_Some (contents_in ss v') ->
  is_Some (contents_in (write_back ss vs views) v').
Proof.
  intros Hwf Hlen. revert ss Hwf.
  induction Hlen as [|v d vs views Hd _ IH]; intros ss Hwf Hv'; simpl;
    [done|].
  apply Forall_cons in Hwf as [Hv Hwf]. apply IH.
  - eapply Forall_impl; [exact Hwf|]. intros v'' Hv''.
    by apply contents_in_store_in_is_Some.
  - by apply contents_in_store_in_is_Some.
Qed.





(** *** Reading and writing in a process *)

Lemma with_storages_id (p : Process) : with_storages (storages p) p = p.
Proof. by destruct p. Qed.

Lemma deref_Ok (p : Process) (t : nat) (v : Tensor) :
  tensors p !! t = Some v -> deref t p = (p, Ok v).
Proof. intros Hv. unfold deref, bind, gets. by rewrite Hv. Qed.

Lemma deref_all_Ok (p : Process) (ts : list nat) (vs : list Tensor) :
  Forall2 (fun t v => tensors p !! t = Some v) ts vs ->
  deref_all ts p = (p, Ok vs).
Proof.
  induction 1 as [|t v ts vs Hv _ IH]; simpl; [done|].
  rewrite (bind_Ok _ _ _ _ _ (deref_Ok p t v Hv)).
  by rewrite (bind_Ok _ _ _ _ _ IH).
Qed.

Lemma read_Ok (p : Process) (t : nat) (v : Tensor) (d : list elem) :
  tensors p !! t = Some v -> contents p v = Some d -> read t p = (p, Ok d).
Proof.
  intros Hv Hd. unfold read.
  rewrite (bind_Ok _ _ _ _ _ (deref_Ok p t v Hv)).
  unfold bind, gets. unfold contents in Hd. by rewrite Hd.
Qed.

Lemma read_all_Ok (p : Process) (ts : list nat) (vs : list Tensor)
    (ds : list (list elem)) :
  Forall2 (fun t v => tensors p !! t = Some v) ts vs ->
  Forall2 (fun v d => contents p v = Some d) vs ds ->
  read_all ts p = (p, Ok ds).
Proof.
  intros Hvs. revert ds. induction Hvs as [|t v ts vs Hv _ IH]; intros ds Hds.
  - by apply Forall2_nil_inv_l in Hds as ->.
  - apply Forall2_cons_inv_l in Hds as (d & ds' & Hd & Hds & ->). simpl.
    rewrite (bind_Ok _ _ _ _ _ (read_Ok p t v d Hv Hd)).
    by rewrite (bind_Ok _ _ _ _ _ (IH ds' Hds)).
Qed.

Lemma write_Ok (p : Process) (t : nat) (v : Tensor) (d : list elem) :
  tensors p !! t = Some v -> is_Some (contents p v) -> length d = numel v ->
  write t d p = (with_storages (store_in (storages p) v d) p, Ok tt).
Proof.
  intros Hv [d0 Hd0] Hlen. unfold write.
  rewrite (bind_Ok _ _ _ _ _ (deref_Ok p t v Hv)).
  unfold bind, gets. unfold contents in Hd0. rewrite Hd0.
  by rewrite decide_True by done.
Qed.

(** Writing to a tensor what it holds leaves the process as it is. *)
Lemma write_same (p : Process) (t : nat) (v : Tensor) (d : list elem) :
  tensors p !! t = Some v -> contents p v = Some d ->
  write t d p = (p, Ok tt).
Proof.
  intros Hv Hd. rewrite (write_Ok p t v d Hv); [|by eexists|].
  - by rewrite (store_in_id _ _ _ Hd), with_storages_id.
  - by eapply contents_in_length.
Qed.

(** The scatter loop writes the views into the storages, one after the
    other. *)
Lemma for_each_copy (ts : list nat) (vs : list Tensor)
    (views : list (list elem)) (p : Process) :
  Forall2 (fun t v => tensors p !! t = Some v) ts vs ->
  Forall (fun v => is_Some (contents p v)) vs ->
  Forall2 (fun v d => length d = numel v) vs views ->
  for_each (zip ts views) (fun '(buf, synced) => copy_ buf synced) p
  = (with_storages (write_back (storages p) vs views) p, Ok tt).
Proof.
  revert vs views p.
  induction ts as [|t ts IH]; intros vs views p Hvs Hwf Hlen.
  - apply Forall2_nil_inv_l in Hvs as ->. simpl.
    by rewrite with_storages_id.
  - apply Forall2_cons_inv_l in Hvs as (v & vs' & Hv & Hvs & ->).
    apply Forall2_cons_inv_l in Hlen as (d & views' & Hd & Hlen & ->).
    apply Forall_cons in Hwf as [Hwfv Hwf]. simpl.
    unfold copy_ at 1.
    rewrite (bind_Ok _ _ _ _ _ (write_Ok p t v d Hv Hwfv Hd)).
    rewrite (IH vs' views' (with_storages (store_in (storages p) v d) p)).
    + done.
    + exact Hvs.
    + eapply Forall_impl; [exact Hwf|]. intros v'' Hv''. unfold contents.
      simpl. by apply contents_in_store_in_is_Some.
    + done.
Qed.

Lemma unflatten_data_length (coalesced : list elem) (vs : list Tensor) :
  length (unflatten_data coalesced vs) = length vs.
Proof.
  revert coalesced. induction vs as [|v vs IH]; intros coalesced; simpl;
    [done|by rewrite IH].
Qed.

(** The slices cut from concatenated contents are the contents. *)
Lemma unflatten_data_concat (vs : list Tensor) (ds : list (list elem)) :
  Forall2 (fun v d => length d = numel v) vs ds ->
  unflatten_data (concat ds) vs = ds.
Proof.
  induction 1 as [|v d vs ds Hd _ IH]; simpl; [done|].
  rewrite take_app_length', drop_app_length' by done. by rewrite IH.
Qed.

Lemma length_concat_numel (vs : list Tensor) (ds : list (list elem)) :
  Forall2 (fun v d => length d = numel v) vs ds ->
  length (concat ds) = sum_list (numel <$> vs).
Proof.
  induction 1 as [|v d vs ds Hd _ IH]; [done|].
  change (length (d ++ concat ds)
          = (numel v + sum_list (numel <$> vs))%nat).
  rewrite length_app. lia.
Qed.

Lemma unflatten_data_lengths (coalesced : list elem) (vs : list Tensor) :
  length coalesced = sum_list (numel <$> vs) ->
  Forall2 (fun v d => length d = numel v) vs (unflatten_data coalesced vs).
Proof.
  revert coalesced. induction vs as [|v vs IH]; intros coalesced Hlen; simpl;
    constructor;
    change (length coalesced = (numel v + sum_list (numel <$> vs))%nat)
      in Hlen.
  - rewrite length_take. lia.
  - apply IH. rewrite length_drop. lia.
Qed.

Lemma same_device_non_host_cuda (vs : list Tensor) :
  same_device_non_host vs = true ->
  Forall (fun v => is_cpu (device v) = false) vs.
Proof.
  destruct vs as [|v0 vs]; [constructor|]. unfold same_device_non_host.
  intros [Hc Hall]%andb_true_iff. apply negb_true_iff in Hc.
  rewrite forallb_forall in Hall. apply Forall_forall. intros v Hv.
  apply list_elem_of_In, Hall, bool_decide_eq_true in Hv. by rewrite Hv.
Qed.

Lemma flatten_Ok (p : Process) (ts : list nat) (vs : list Tensor)
    (ds : list (list elem)) :
  Forall2 (fun t v => tensors p !! t = Some v) ts vs ->
  Forall2 (fun v d => contents p v = Some d) vs ds ->
  same_device_non_host vs = true ->
  flatten ts p = (p, Ok (concat ds)).
Proof.
  intros Hvs Hds Hdev. unfold flatten.
  rewrite (bind_Ok _ _ _ _ _ (deref_all_Ok p ts vs Hvs)). rewrite Hdev.
  by rewrite (bind_Ok _ _ _ _ _ (read_all_Ok p ts vs ds Hvs Hds)).
Qed.

Lemma flatten_InvalidDeviceError (p : Process) (ts : list nat)
    (vs : list Tensor) :
  Forall2 (fun t v => tensors p !! t = Some v) ts vs ->
  same_device_non_host vs = false ->
  flatten ts p = (p, Raise InvalidDeviceError).
Proof.
  intros Hvs Hdev. unfold flatten.
  rewrite (bind_Ok _ _ _ _ _ (deref_all_Ok p ts vs Hvs)). by rewrite Hdev.
Qed.

Lemma unflatten_Ok (p : Process) (coalesced : list elem) (ts : list nat)
    (vs : list Tensor) :
  Forall2 (fun t v => tensors p !! t = Some v) ts vs ->
  length coalesced = sum_list (numel <$> vs) ->
  unflatten coalesced ts p = (p, Ok (unflatten_data coalesced vs)).
Proof.
  intros Hvs Hlen. unfold unflatten.
  rewrite (bind_Ok _ _ _ _ _ (deref_all_Ok p ts vs Hvs)).
  by rewrite decide_True by done.
Qed.

Lemma Forall2_contents_length (p : Process) (vs : list Tensor)
    (ds : list (list elem)) :
  Forall2 (fun v d => contents p v = Some d) vs ds ->
  Forall2 (fun v d => length d = numel v) vs ds.
Proof.
  intros H. eapply Forall2_impl; [exact H|]. intros v d Hd. simpl in Hd.
  exact (contents_in_length _ _ _ Hd).
Qed.

Lemma Forall2_contents_is_Some (p : Process) (vs : list Tensor)
    (ds : list (list elem)) :
  Forall2 (fun v d => contents p v = Some d) vs ds ->
  Forall (fun v => is_Some (contents p v)) vs.
Proof. induction 1; constructor; [by eexists|done]. Qed.

Lemma Forall2_on_cuda (p : Process) (ts : list nat) (vs : list Tensor) :
  Forall2 (fun t v => tensors p !! t = Some v) ts vs ->
  Forall (fun v => is_cpu (device v) = false) vs ->
  Forall (on_cuda p) ts.
Proof.
  induction 1 as [|t v ts vs Hv _ IH]; intros Hc; constructor.
  - exists v. split; [done|]. by apply Forall_inv in Hc.
  - apply IH. by apply Forall_inv_tail in Hc.
Qed.

Lemma comm_broadcast_Ok (p : Process) (c : Communicator) (buf : list elem)
    (root : Z) :
  length (wire_broadcast (wire p) root buf) = length buf ->
  comm_broadcast c buf root p
  = (with_trace (trace p ++ [EvBroadcast c root buf]) p,
     Ok (wire_broadcast (wire p) root buf)).
Proof.
  intros Hlen. unfold comm_broadcast, bind, emit, modify, gets. simpl.
  by rewrite decide_True by done.
Qed.

End StorageFacts.

(** ** Coalescing and scattering *)

Section CoalesceFacts.
Import Comm.
Context {elem : Type}.
Abbreviation Process := (@Process elem).

(** C3.  For tensors held by a process, on one device that is not the
    host: the slices cut from the coalesced buffer are the tensors'
    contents, and scattering right after coalescing leaves every tensor and
    every storage, and the whole process, as it was, also when tensors of
    the list overlap or are listed twice; and so does [broadcast_coalesced]
    on a rank whose buffer the transport leaves alone (as on the root), up
    to the events it records.  For tensors on the host or on different
    devices the coalescing step fails with [InvalidDeviceError] and nothing
    is written. *)
Theorem coalesce_scatter_roundtrip (p : Process) (ts : list nat)
    (vs : list Tensor) :
  Forall2 (fun t v => tensors p !! t = Some v) ts vs ->
  (same_device_non_host vs = false ->
   coalesce_scatter ts p = (p, Raise InvalidDeviceError)) /\
  (forall ds,
     same_device_non_host vs = true ->
     Forall2 (fun v d => contents p v = Some d) vs ds ->
     unflatten_data (concat ds) vs = ds /\
     coalesce_scatter ts p = (p, Ok tt) /\
     forall (root : Z) (c : Communicator),
       wire_broadcast (wire p) root (concat ds) = concat ds ->
       exists p',
         broadcast_coalesced ts root (Some c) p = (p', Ok tt) /\
         storages p' = storages p /\
         tensors p' = tensors p /\
         trace p' = trace p ++ [EvRecordEvent; EvWaitEvent (cuda_stream c);
                                EvBroadcast c root (concat ds);
                                EvSynchronize]).
Proof.
  intros Hvs. split.
  - intros Hdev. unfold coalesce_scatter.
    by rewrite (bind_Raise _ _ _ _ _
                  (flatten_InvalidDeviceError p ts vs Hvs Hdev)).
  - intros ds Hdev Hds.
    pose proof (Forall2_contents_length p vs ds Hds) as Hlen.
    pose proof (Forall2_contents_is_Some p vs ds Hds) as Hwf.
    pose proof (unflatten_data_concat vs ds Hlen) as Hun.
    split; [exact Hun|]. split.
    + unfold coalesce_scatter.
      rewrite (bind_Ok _ _ _ _ _ (flatten_Ok p ts vs ds Hvs Hds Hdev)).
      rewrite (bind_Ok _ _ _ _ _
                 (unflatten_Ok p _ ts vs Hvs (length_concat_numel vs ds Hlen))).
      rewrite Hun, (for_each_copy ts vs ds p Hvs Hwf Hlen).
      by rewrite (write_back_same _ _ _ Hds), with_storages_id.
    + intros root c Hwire. unfold broadcast_coalesced.
      rewrite (bind_Ok _ _ _ _ _
                 (for_each_assert_not_cpu_Ok p _ ts
                    (Forall2_on_cuda p ts vs Hvs
                       (same_device_non_host_cuda vs Hdev)))).
      erewrite bind_Ok by reflexivity.
      erewrite bind_Ok by reflexivity.
      erewrite bind_Ok by reflexivity.
      erewrite bind_Ok by (apply (flatten_Ok _ ts vs ds); done).
      erewrite bind_Ok
        by (apply comm_broadcast_Ok; simpl; by rewrite Hwire).
      simpl wire. rewrite Hwire.
      erewrite bind_Ok
        by (apply (unflatten_Ok _ _ ts vs); [done|];
            by apply length_concat_numel).
      rewrite Hun.
      erewrite bind_Ok by (apply (for_each_copy ts vs ds); done).
      simpl storages. rewrite (write_back_same _ _ _ Hds).
      eexists. split; [reflexivity|]. simpl.
      split; [done|]. split; [done|]. by rewrite <- !app_assoc.
Qed.
End CoalesceFacts.
(** ** All-reduce *)

Section SumFacts.
Import Comm.
Context {elem : Type} (esum : list elem -> elem).





(** On the root the broadcast of the job leaves the buffer alone. *)
Lemma world_wire_broadcast_root (i : nat) (buf : list elem)
    (contribs : list (list elem)) :
  (i < length contribs)%nat ->
  wire_broadcast (world_wire esum i contribs) (Z.of_nat i) buf = buf.
Proof.
  intros Hi. simpl. unfold root_buffer.
  rewrite (proj2 (Z.ltb_ge _ _)) by lia.
  by rewrite Nat2Z.id, list_lookup_insert_eq.
Qed.






End SumFacts.

Section AllreduceFacts.
Import Comm.
Context {elem : Type} (floating : bool) (true_divide : elem -> Z -> elem)
        (esum : list elem -> elem).
Abbreviation Process := (@Process elem).






End AllreduceFacts.
Section CollectiveExamples.
Import Comm.
Local Open Scope Z_scope.

(** Three tensors, the first two sharing the third element of storage 1,
    the first listed twice. *)
Lemma coalesce_scatter_roundtrip_witness :
  coalesce_scatter [0; 1; 2; 0]%nat overlapping_tensors
  = (overlapping_tensors, Ok tt).
Proof.
  destruct (coalesce_scatter_roundtrip overlapping_tensors [0; 1; 2; 0]%nat
              [mkTensor (Cuda 0) 1 0 3; mkTensor (Cuda 0) 1 2 2;
               mkTensor (Cuda 0) 2 0 1; mkTensor (Cuda 0) 1 0 3])
    as [_ Hround].
  { repeat constructor. }
  destruct (Hround [[1; 2; 3]; [3; 4]; [5]; [1; 2; 3]] eq_refl)
    as (_ & Hrun & _).
  { repeat constructor. }
  exact Hrun.
Defined.


End CollectiveExamples.

(** * Further properties of the grouper *)

Section SortedMore.
Context {T : Type} (key : T -> Z).
Local Open Scope Z_scope.

Lemma NoDup_map_inj (l : list T) (x y : T) :
  NoDup (map key l) -> x ∈ l -> y ∈ l -> key x = key y -> x = y.
Proof.
  induction l as [|z l IH]; intros Hnd Hx Hy Hk; [by inversion Hx|].
  simpl in Hnd. apply NoDup_cons in Hnd as [Hz Hnd].
  apply elem_of_cons in Hx as [->|Hx], Hy as [->|Hy]; [done|..].
  - exfalso. apply Hz. rewrite Hk. apply list_elem_of_fmap. by exists y.
  - exfalso. apply Hz. rewrite <- Hk. apply list_elem_of_fmap. by exists x.
  - by apply IH.
Qed.

(** With distinct keys the sorted list depends on the elements only, not
    on the order in which they are given. *)
Lemma py_sorted_Permutation_eq (l l' : list T) :
  NoDup (map key l) -> Permutation l l' ->
  py_sorted key l = py_sorted key l'.
Proof.
  intros Hnd Hp.
  apply (StronglySorted_unique_strong (fun x y => key x <= key y)).
  - intros x1 x2 H1 H2 Hle Hge.
    rewrite py_sorted_Permutation in H1.
    rewrite py_sorted_Permutation, <- Hp in H2.
    apply (NoDup_map_inj l); [done..|lia].
  - apply py_sorted_sorted.
  - apply py_sorted_sorted.
  - by rewrite !py_sorted_Permutation.
Qed.
End SortedMore.

Section FuseMore.
Import Fuse.
Local Open Scope Z_scope.

(** X1.  When the parameters have pairwise distinct storage offsets,
    [reorder_params] returns the same groups (or fails in the same way) for
    every order in which the parameters are listed. *)
Theorem reorder_params_order_independent {G : Type}
    (collocate_params : list Param -> result G) (ps ps' : list Param) :
  NoDup (map storage_offset ps) -> Permutation ps ps' ->
  reorder_params collocate_params ps = reorder_params collocate_params ps'.
Proof.
  intros Hnd Hp. unfold reorder_params.
  by rewrite (py_sorted_Permutation_eq storage_offset ps ps' Hnd Hp).
Qed.

Lemma reorder_params_order_independent_witness :
  param_runs [C; A; B] = param_runs [B; C; A].
Proof.
  apply (reorder_params_order_independent Ok [C; A; B] [B; C; A]).
  - apply (bool_decide_unpack _). vm_compute. exact I.
  - symmetry. apply (Permutation_cons_append [C; A] B).
Defined.

Lemma reorder_loop_length {G : Type} (c : list Param -> result G)
    (rest : list Param) (grouped : list G) (tmp : list Param) (gs : list G) :
  reorder_loop c rest grouped tmp = Ok gs ->
  let open := if tmp is [] then 0%nat else 1%nat in
  (length grouped + open <= length gs <= length grouped + length rest + open)%nat /\
  (rest <> [] -> length grouped + 1 <= length gs)%nat.
Proof.
  revert grouped tmp. induction rest as [|p rest IH]; intros grouped tmp; simpl.
  - destruct tmp as [|x tmp]; [intros [= <-]; split; [lia|done]|].
    destruct (c (x :: tmp)) as [g| |]; simpl; [|done..].
    intros [= <-]. rewrite length_app. simpl. split; [lia|done].
  - destruct (last tmp) as [q|] eqn:Hlast.
    + assert (tmp <> []) as Hne by (intros ->; done).
      destruct (is_contiguous_param p q) as [b| |]; simpl; [|done..].
      destruct b; simpl.
      * intros H. apply IH in H as [H _]. destruct tmp; [done|]. simpl in *.
        split; [lia|]. intros _. lia.
      * destruct (c tmp) as [g| |]; simpl; [|done..].
        intros H. apply IH in H as [H _]. rewrite length_app in H.
        destruct tmp; [done|]. simpl in *. split; [lia|]. intros _. lia.
    + apply last_None in Hlast as ->. simpl.
      intros H. apply IH in H as [H _]. simpl in H. split; [lia|]. intros _. lia.
Qed.

(** X2.  Whatever [collocate_params] does, a successful [reorder_params]
    returns at most as many groups as it was given parameters, at least
    one group when it was given any, and no group (without calling
    [collocate_params]) for the empty list. *)
Theorem reorder_params_group_count {G : Type}
    (collocate_params : list Param -> result G) (ps : list Param)
    (gs : list G) :
  reorder_params collocate_params ps = Ok gs ->
  (length gs <= length ps)%nat /\
  (ps <> [] -> gs <> []) /\
  reorder_params collocate_params [] = Ok [].
Proof.
  unfold reorder_params. intros H.
  apply reorder_loop_length in H as [H1 H2]. simpl in *.
  pose proof (Permutation_length (py_sorted_Permutation storage_offset ps))
    as Hlen.
  split; [lia|]. split; [|done].
  intros Hne ->. simpl in H2.
  assert (py_sorted storage_offset ps <> []) as Hs.
  { intros Hs. rewrite Hs in Hlen. destruct ps; [done|]. simpl in Hlen. lia. }
  specialize (H2 Hs). lia.
Qed.

Lemma reorder_params_group_count_witness :
  param_runs [C; A; B] = Ok [[A; B]; [C]] /\
  (length [[A; B]; [C]] <= length [C; A; B])%nat.
Proof.
  split; [reflexivity|].
  exact (proj1 (reorder_params_group_count Ok [C; A; B] [[A; B]; [C]]
                  eq_refl)).
Defined.

(** X3.  [is_contiguous_param] does not depend on the order of its two
    arguments, whether or not the parameters carry gradients. *)
Theorem is_contiguous_param_symmetric (a b : Param) :
  is_contiguous_param a b = is_contiguous_param b a.
Proof.
  unfold is_contiguous_param, follows, grad_storage_offset.
  destruct (grad a) as [ga|], (grad b) as [gb|]; simpl;
    destruct (storage_offset a =? storage_offset b + allocate_size b);
    destruct (storage_offset b =? storage_offset a + allocate_size a);
    simpl; try done;
    destruct (ga =? gb + allocate_size b), (gb =? ga + allocate_size a); done.
Qed.

Lemma is_contiguous_param_missing_grad (a b : Param) :
  grad a = None \/ grad b = None ->
  is_contiguous_param a b
  = if data_adjacent a b then Raise AttributeError else Ok false.
Proof.
  unfold is_contiguous_param, follows, grad_storage_offset, data_adjacent.
  intros [Hg|Hg]; rewrite Hg;
    destruct (storage_offset a =? storage_offset b + allocate_size b);
    destruct (storage_offset b =? storage_offset a + allocate_size a);
    simpl; try done; by destruct (grad a), (grad b).
Qed.

(** X4.  When one of the two parameters has no gradient,
    [is_contiguous_param] raises [AttributeError] if the data buffers touch
    in either order, and otherwise answers [False] without reading any
    gradient. *)
Theorem is_contiguous_param_without_grad (a b : Param) :
  grad a = None \/ grad b = None ->
  is_contiguous_param a b
  = if data_adjacent a b then Raise AttributeError else Ok false.
Proof. apply is_contiguous_param_missing_grad. Qed.

Lemma is_contiguous_param_without_grad_witness :
  is_contiguous_param B0 A = Raise AttributeError.
Proof. apply (is_contiguous_param_without_grad B0 A). by left. Defined.

Lemma reorder_loop_without_grads (rest : list Param)
    (grouped : list (list Param)) (q : Param) :
  Forall (fun p => grad p = None) (q :: rest) ->
  reorder_loop Ok rest grouped [q]
  = if has_adjacent_neighbours (q :: rest) then Raise AttributeError
    else Ok (grouped ++ map (fun p => [p]) (q :: rest)).
Proof.
  revert grouped q. induction rest as [|p rest IH]; intros grouped q Hg; [done|].
  apply Forall_cons in Hg as [Hq Hg].
  change (has_adjacent_neighbours (q :: p :: rest))
    with (data_adjacent p q || has_adjacent_neighbours (p :: rest)).
  cbn [reorder_loop last].
  rewrite (is_contiguous_param_missing_grad p q (or_intror Hq)).
  destruct (data_adjacent p q); [done|]. cbn [negb rbind orb app].
  rewrite (IH _ p Hg).
  destruct (has_adjacent_neighbours (p :: rest)); [done|].
  by rewrite <- app_assoc.
Qed.

(** X5.  For parameters none of which has a gradient yet (as before the
    first backward pass), the grouper raises [AttributeError] when two
    neighbours of the sorted list have touching data buffers, and otherwise
    returns every parameter as a group of its own, in sorted order. *)
Theorem param_runs_without_grads (ps : list Param) :
  Forall (fun p => grad p = None) ps ->
  param_runs ps
  = if has_adjacent_neighbours (py_sorted storage_offset ps)
    then Raise AttributeError
    else Ok (map (fun p => [p]) (py_sorted storage_offset ps)).
Proof.
  intros Hg. unfold param_runs, reorder_params.
  assert (Forall (fun p => grad p = None) (py_sorted storage_offset ps)) as Hs
    by (by rewrite py_sorted_Permutation).
  destruct (py_sorted storage_offset ps) as [|q rest]; [done|].
  cbn [reorder_loop last app]. by rewrite (reorder_loop_without_grads rest [] q Hs).
Qed.

Lemma param_runs_without_grads_witness :
  param_runs [B0; A0] = Raise AttributeError /\
  param_runs [mkParam 7 20 10 None None; A0]
  = Ok [[A0]; [mkParam 7 20 10 None None]].
Proof.
  split.
  - apply (param_runs_without_grads [B0; A0]). by repeat constructor.
  - apply (param_runs_without_grads [mkParam 7 20 10 None None; A0]).
    by repeat constructor.
Defined.

Lemma first_occurrences_constant (k : Z) (l : list Z) :
  l <> [] -> Forall (fun k' => k' = k) l -> first_occurrences l = [k].
Proof.
  intros Hne Hl. destruct l as [|k' l]; [done|].
  apply Forall_cons in Hl as [-> Hl]. simpl. f_equal.
  apply filter_none. intros k' Hk' Hne'. apply Hne'.
  apply (proj1 (elem_of_first_occurrences l k')) in Hk'.
  rewrite Forall_forall in Hl. by apply Hl.
Qed.

Lemma filter_all {X : Type} (P : X -> Prop) `{forall x, Decision (P x)}
    (l : list X) :
  Forall P l -> filter P l = l.
Proof.
  induction 1 as [|x l Hx _ IH]; [done|].
  by rewrite filter_cons, decide_True, IH.
Qed.

(** X6.  When all parameters of a non-empty list lie in one storage,
    [group_params_by_storage] returns a single bucket holding the list as
    given, and the new parameter list of the group is what
    [reorder_params] returns for the whole list. *)
Theorem fuse_group_single_storage
    (collocate_params : list Param -> result Param) (k : Z)
    (ps : list Param) :
  ps <> [] -> Forall (fun p => storage_ptr p = k) ps ->
  group_params_by_storage ps = [(k, ps)] /\
  fuse_group collocate_params ps = reorder_params collocate_params ps.
Proof.
  intros Hne Hk.
  assert (group_params_by_storage ps = [(k, ps)]) as Hgroup.
  { rewrite group_params_by_storage_buckets. unfold buckets_of.
    rewrite (first_occurrences_constant k).
    - simpl. by rewrite filter_all.
    - by destruct ps.
    - clear Hne. induction Hk; by constructor. }
  split; [done|]. unfold fuse_group. rewrite Hgroup. simpl.
  by destruct (reorder_params collocate_params ps).
Qed.

Lemma fuse_group_single_storage_witness :
  group_params_by_storage [C; A; B] = [(7, [C; A; B])].
Proof.
  apply (fuse_group_single_storage first_of_run 7 [C; A; B]); [done|].
  by repeat constructor.
Defined.

Lemma mapM_Ok_Forall2 {X Y : Type} (f : X -> result Y) (l : list X)
    (ys : list Y) :
  mapM f l = Ok ys -> Forall2 (fun x y => f x = Ok y) l ys.
Proof.
  revert ys. induction l as [|x l IH]; intros ys; simpl.
  - intros [= <-]. constructor.
  - destruct (f x) as [y| |] eqn:Hx; simpl; [|done..].
    destruct (mapM f l) as [ys'| |]; simpl; [|done..].
    intros [= <-]. constructor; [done|]. by apply IH.
Qed.

(** X7.  A successful rewrite of a parameter group by
    [FusedOptimizer.step] never leaves it with more parameters than it had,
    and never leaves a non-empty group empty. *)
Theorem fuse_group_count (collocate_params : list Param -> result Param)
    (ps fused : list Param) :
  fuse_group collocate_params ps = Ok fused ->
  (length fused <= length ps)%nat /\ (ps <> [] -> fused <> []).
Proof.
  rewrite fuse_group_mapM.
  destruct (mapM (reorder_params collocate_params)
              (dict_values (group_params_by_storage ps))) as [rss| |] eqn:Hm;
    simpl; [|done..].
  intros [= <-]. apply mapM_Ok_Forall2 in Hm.
  assert ((length (concat rss)
           <= length (concat (dict_values (group_params_by_storage ps))))%nat
          /\ (concat (dict_values (group_params_by_storage ps)) <> [] ->
              concat rss <> [])) as [Hle Hne].
  { induction Hm as [|b rs bs rss' Hb _ [IH1 IH2]]; [done|].
    simpl. rewrite !length_app.
    destruct (reorder_loop_length collocate_params
                (py_sorted storage_offset b) [] [] rs Hb) as [Hb1 Hb2].
    pose proof (Permutation_length (py_sorted_Permutation storage_offset b))
      as Hlen.
    simpl in *. split; [lia|].
    intros Hcat Hrs. apply app_eq_nil in Hrs as [-> Hrss].
    destruct b as [|p b].
    - simpl in Hcat. by apply IH2.
    - assert (py_sorted storage_offset (p :: b) <> []) as Hs.
      { intros Hs. rewrite Hs in Hlen. simpl in Hlen. lia. }
      specialize (Hb2 Hs). simpl in Hb2. lia. }
  pose proof (group_params_by_storage_Permutation ps) as Hp.
  split.
  - rewrite <- (Permutation_length Hp). exact Hle.
  - intros Hps. apply Hne. intros Hcat. rewrite Hcat in Hp.
    apply Permutation_nil in Hp. done.
Qed.

Lemma fuse_group_count_witness :
  fuse_group first_of_run [C; A; B] = Ok [A; C] /\
  (length [A; C] <= length [C; A; B])%nat.
Proof.
  split; [reflexivity|].
  exact (proj1 (fuse_group_count first_of_run [C; A; B] [A; C] eq_refl)).
Defined.

(** X8.  [FusedOptimizer.step] rewrites the parameter groups in order and
    stops at the first group whose rewrite fails: the groups before it hold
    their fused parameters, that group and all later ones are left
    untouched, and the failure is the one reported.  In every case the
    number of groups and the other entries of each group are kept. *)
Theorem step_groups_stops_at_failure {O : Type}
    (collocate_params : list Param -> result Param)
    (groups groups' : list (ParamGroup O)) (r : result unit) :
  step_groups collocate_params groups = (groups', r) ->
  Forall2 (fun g g' => options g' = options g) groups groups' /\
  exists k : nat,
    Forall2 (fun g g' => fuse_group collocate_params (params g)
                         = Ok (params g'))
            (take k groups) (take k groups') /\
    drop k groups' = drop k groups /\
    match groups !! k with
    | None => r = Ok tt
    | Some g => same_failure (fuse_group collocate_params (params g)) r
    end.
Proof.
  revert groups' r. induction groups as [|g groups IH]; intros groups' r; simpl.
  - intros [= <- <-]. split; [constructor|]. exists 0%nat. by repeat split.
  - destruct (fuse_group collocate_params (params g)) as [fused| |] eqn:Hf.
    + destruct (step_groups collocate_params groups) as [rest' r'] eqn:Hs.
      intros [= <- <-]. destruct (IH rest' r' eq_refl) as (Ho & k & Hk1 & Hk2 & Hk3).
      split; [by constructor|]. exists (S k). simpl.
      split; [by constructor|]. by split.
    + intros [= <- <-]. split.
      * clear. induction (g :: groups); by constructor.
      * exists 0%nat. simpl. split; [constructor|]. split; [done|].
        by rewrite Hf.
    + intros [= <- <-]. split.
      * clear. induction (g :: groups); by constructor.
      * exists 0%nat. simpl. split; [constructor|]. split; [done|].
        by rewrite Hf.
Qed.

Lemma step_groups_stops_at_failure_witness :
  step_groups first_of_run
    [mkGroup [C; A; B] tt; mkGroup [B0; A0] tt; mkGroup [C] tt]
  = ([mkGroup [A; C] tt; mkGroup [B0; A0] tt; mkGroup [C] tt],
     Raise AttributeError) /\
  Forall2 (fun g g' : ParamGroup unit => options g' = options g)
    [mkGroup [C; A; B] tt; mkGroup [B0; A0] tt; mkGroup [C] tt]
    [mkGroup [A; C] tt; mkGroup [B0; A0] tt; mkGroup [C] tt].
Proof.
  split; [reflexivity|].
  exact (proj1 (step_groups_stops_at_failure first_of_run
                  [mkGroup [C; A; B] tt; mkGroup [B0; A0] tt; mkGroup [C] tt]
                  [mkGroup [A; C] tt; mkGroup [B0; A0] tt; mkGroup [C] tt]
                  (Raise AttributeError) eq_refl)).
Defined.
End FuseMore.
(** * Further properties of initialization and rendezvous *)

Section FrameFacts.
Import Comm.
Context {elem : Type}.
Abbreviation Process := (@Process elem).
Abbreviation M := (@M elem).

Lemma preserves_bind {X Y : Type} (R : Process -> Process -> Prop)
    (m : M X) (f : X -> M Y) :
  (forall p, R p p) -> (forall p1 p2 p3, R p1 p2 -> R p2 p3 -> R p1 p3) ->
  preserves R m -> (forall x, preserves R (f x)) -> preserves R (bind m f).
Proof.
  intros Hrefl Htrans Hm Hf p p' r. unfold bind.
  destruct (m p) as [p1 [x|e|k]] eqn:Hmp; intros H.
  - eapply Htrans; [by eapply Hm|by eapply Hf].
  - injection H as <- <-. by eapply Hm.
  - injection H as <- <-. by eapply Hm.
Qed.

Lemma preserves_pure {X : Type} (R : Process -> Process -> Prop)
    (g : Process -> result X) :
  (forall p, R p p) -> preserves R (fun p => (p, g p)).
Proof. intros Hrefl p p' r [= <- <-]. apply Hrefl. Qed.

Lemma init_frame_refl (p : Process) : init_frame p p.
Proof. by repeat split. Qed.

Lemma init_frame_trans (p1 p2 p3 : Process) :
  init_frame p1 p2 -> init_frame p2 p3 -> init_frame p1 p3.
Proof.
  intros (H1 & H2 & H3 & H4 & H5 & H6 & H7 & H8 & H9)
         (K1 & K2 & K3 & K4 & K5 & K6 & K7 & K8 & K9).
  repeat split; try congruence. intros k Hk. by apply K9, H9.
Qed.

Lemma init_frame_emit (e : @event elem) : preserves init_frame (emit e).
Proof. intros p p' r [= <- <-]. by repeat split. Qed.

Lemma init_frame_gen_nccl_unique_id (comm_type : string) (root : Z)
    (store : option StoreRef) :
  preserves init_frame (gen_nccl_unique_id (elem := elem) comm_type root store).
Proof.
  intros p p' r.
  unfold gen_nccl_unique_id, _get_default_store, generate_nccl_unique_id_str,
    store_set, store_get, emit.
  unfold bind, get_rank, gets, modify, ret, raise.
  assert (forall q : Process,
    (let (p0, r0) :=
       (if RANK (env q) =? root
        then
         (with_default_store
            (<[unique_id_key comm_type root := unique_ids q (generated q)]>
               (default_store q))
            (with_trace
               ((trace q ++ [EvGenerateId (unique_ids q (generated q))])
                ++ [EvStoreSet (unique_id_key comm_type root)
                      (unique_ids q (generated q))])
               (with_generated (S (generated q)) q)),
          Ok (unique_ids q (generated q)))
        else
         match default_store q !! unique_id_key comm_type root with
         | Some value =>
             (with_trace
                (trace q ++ [EvStoreGet (unique_id_key comm_type root)]) q,
              Ok value)
         | None =>
             (with_trace
                (trace q ++ [EvStoreGet (unique_id_key comm_type root)]) q,
              Blocked (unique_id_key comm_type root))
         end)%Z in init_frame q p0)) as Hbody.
  { intros q. destruct (RANK (env q) =? root)%Z.
    - repeat split; simpl; try done.
      intros k Hk.
      destruct (decide (unique_id_key comm_type root = k)) as [<-|Hne].
      + rewrite lookup_insert_eq. by eexists.
      + by rewrite lookup_insert_ne.
    - destruct (default_store q !! unique_id_key comm_type root);
        by repeat split. }
  destruct store as [s|]; simpl.
  - specialize (Hbody p). destruct (RANK (env p) =? root)%Z; simpl.
    + intros [= <- <-]. exact Hbody.
    + destruct (default_store p !! unique_id_key comm_type root);
        intros [= <- <-]; exact Hbody.
  - destruct (dist_initialized p); simpl.
    + specialize (Hbody p). destruct (RANK (env p) =? root)%Z; simpl.
      * intros [= <- <-]. exact Hbody.
      * destruct (default_store p !! unique_id_key comm_type root);
          intros [= <- <-]; exact Hbody.
    + intros [= <- <-]. apply init_frame_refl.
Qed.

Lemma init_frame_BaguaSingleCommunicatorPy (rank nranks device_id : Z)
    (stream : Stream) (idstr : string) :
  preserves init_frame
    (BaguaSingleCommunicatorPy (elem := elem) rank nranks device_id stream idstr).
Proof.
  intros p p' r.
  unfold BaguaSingleCommunicatorPy, emit, bind, gets, modify, ret, raise.
  simpl. destruct (comm_new p _); intros [= <- <-]; by repeat split.
Qed.

Lemma init_frame_logging_debug_ranks (c : Communicator) :
  preserves init_frame (logging_debug_ranks (elem := elem) c).
Proof.
  intros p p' r.
  unfold logging_debug_ranks, dist_get_rank, get_rank, bind, gets, ret, raise.
  destruct (dist_initialized p); intros [= <- <-]; apply init_frame_refl.
Qed.

Ltac init_framed :=
  repeat first
    [ apply init_frame_emit
    | apply init_frame_gen_nccl_unique_id
    | apply init_frame_BaguaSingleCommunicatorPy
    | apply init_frame_logging_debug_ranks
    | apply (preserves_pure init_frame _ init_frame_refl)
    | apply (preserves_bind init_frame _ _ init_frame_refl init_frame_trans);
      [|intros ?]
    | match goal with
      | |- preserves _ (if ?b then _ else _) => destruct b
      | |- preserves _ (match ?o with Some _ => _ | None => _ end) =>
          destruct o
      end ].

Lemma init_frame_device_id (device_id : option Z) :
  preserves init_frame (device_id_or_local_rank (elem := elem) device_id).
Proof. destruct device_id; init_framed. Qed.

Lemma init_frame_inter (stream : Stream) (leader_rank : Z)
    (store : option StoreRef) (device_id : option Z) :
  preserves init_frame
    (init_bagua_inter_communicator (elem := elem) stream leader_rank store
       device_id).
Proof.
  unfold init_bagua_inter_communicator, get_rank, get_local_size,
    get_world_size, gets, lift, ret.
  apply (preserves_bind init_frame _ _ init_frame_refl init_frame_trans);
    [apply init_frame_device_id|intros ?].
  init_framed.
Qed.

Lemma init_frame_intra (stream : Stream) (store : option StoreRef)
    (device_id : option Z) :
  preserves init_frame
    (init_bagua_intra_communicator (elem := elem) stream store device_id).
Proof.
  unfold init_bagua_intra_communicator, get_rank, get_local_size, gets, lift.
  apply (preserves_bind init_frame _ _ init_frame_refl init_frame_trans);
    [apply init_frame_device_id|intros ?].
  init_framed.
Qed.

Lemma init_frame_global (stream : Stream) (store : option StoreRef)
    (device_id : option Z) :
  preserves init_frame
    (init_bagua_communicator (elem := elem) stream store device_id).
Proof.
  unfold init_bagua_communicator, get_rank, get_world_size, gets.
  apply (preserves_bind init_frame _ _ init_frame_refl init_frame_trans);
    [apply init_frame_device_id|intros ?].
  init_framed.
Qed.

Lemma init_frame_BaguaGlobalState_init (store : option StoreRef)
    (device_id : option Z) :
  preserves init_frame (BaguaGlobalState_init (elem := elem) store device_id).
Proof.
  unfold BaguaGlobalState_init, get_master_addr, get_bagua_service_port, gets,
    ret.
  apply (preserves_bind init_frame _ _ init_frame_refl init_frame_trans);
    [apply init_frame_device_id|intros ?].
  apply (preserves_bind init_frame _ _ init_frame_refl init_frame_trans);
    [init_framed|intros ?].
  apply (preserves_bind init_frame _ _ init_frame_refl init_frame_trans);
    [init_framed|intros ?].
  apply (preserves_bind init_frame _ _ init_frame_refl init_frame_trans);
    [apply init_frame_inter|intros ?].
  apply (preserves_bind init_frame _ _ init_frame_refl init_frame_trans);
    [apply init_frame_intra|intros ?].
  apply (preserves_bind init_frame _ _ init_frame_refl init_frame_trans);
    [apply init_frame_global|intros ?].
  init_framed.
Qed.
End FrameFacts.

Section StringFacts.
Local Open Scope string_scope.

Lemma string_length_app (s t : string) :
  String.length (s +:+ t) = String.length s + String.length t.
Proof. induction s as [|a s IH]; simpl; [done|by rewrite IH]. Qed.

Lemma string_app_inj_r (t s1 s2 : string) : s1 +:+ t = s2 +:+ t -> s1 = s2.
Proof.
  revert s2. induction s1 as [|a s1 IH]; intros [|b s2] H; simpl in H.
  - done.
  - exfalso. apply (f_equal String.length) in H.
    rewrite ?string_length_app in H. simpl in H.
    rewrite ?string_length_app in H. lia.
  - exfalso. apply (f_equal String.length) in H.
    rewrite ?string_length_app in H. simpl in H.
    rewrite ?string_length_app in H. lia.
  - injection H as -> H. f_equal. by apply IH.
Qed.

Lemma unique_id_key_inj_root (comm_type : string) (root root' : Z) :
  Comm.unique_id_key comm_type root = Comm.unique_id_key comm_type root' ->
  root = root'.
Proof.
  unfold Comm.unique_id_key. intros H.
  apply (inj (String.append comm_type)) in H.
  apply (inj (String.append "-")) in H.
  apply string_app_inj_r in H. by apply (inj pretty) in H.
Qed.
End StringFacts.
Section RendezvousMore.
Import Comm.
Context {elem : Type}.
Abbreviation Process := (@Process elem).
Local Open Scope Z_scope.

(** X9.  What the root of a scope publishes is what every other member
    fetches: a process that is not the root and sees under the scope's key
    what the root's call left there returns the identifier the root
    generated, and its own call leaves the store as it found it.  (Both
    calls are given a store, or are made after [torch.distributed] has been
    initialized.) *)
Theorem rendezvous_agreement (p q : Process) (comm_type : string) (root : Z)
    (store store' : option StoreRef) :
  (store = None -> dist_initialized p = true) ->
  (store' = None -> dist_initialized q = true) ->
  RANK (env p) = root -> RANK (env q) <> root ->
  default_store q !! unique_id_key comm_type root
  = default_store (fst (gen_nccl_unique_id comm_type root store p))
      !! unique_id_key comm_type root ->
  snd (gen_nccl_unique_id comm_type root store' q)
  = snd (gen_nccl_unique_id comm_type root store p) /\
  snd (gen_nccl_unique_id comm_type root store p)
  = Ok (unique_ids p (generated p)) /\
  default_store (fst (gen_nccl_unique_id comm_type root store' q))
  = default_store q.
Proof.
  intros Hdp Hdq Hp Hq Hstore.
  rewrite (gen_nccl_unique_id_root p comm_type root store Hdp Hp) in *.
  simpl in Hstore. rewrite lookup_insert_eq in Hstore.
  rewrite (gen_nccl_unique_id_fetch q comm_type root store' _ Hdq Hq Hstore).
  done.
Qed.

Lemma unique_id_key_inj (comm_type comm_type' : string) (root root' : Z) :
  comm_type ∈ ["bagua_inter_comm"; "bagua_intra_comm"; "bagua_global_comm"] ->
  comm_type' ∈ ["bagua_inter_comm"; "bagua_intra_comm"; "bagua_global_comm"] ->
  unique_id_key comm_type root = unique_id_key comm_type' root' ->
  comm_type = comm_type' /\ root = root'.
Proof.
  intros H H' Hkey.
  assert (forall x, x ∈ ["bagua_inter_comm"; "bagua_intra_comm";
                          "bagua_global_comm"] ->
            x = "bagua_inter_comm" \/ x = "bagua_intra_comm" \/
            x = "bagua_global_comm") as Hin.
  { intros x Hx. rewrite !elem_of_cons, elem_of_nil in Hx. tauto. }
  destruct (Hin _ H) as [-> | [-> | ->]], (Hin _ H') as [-> | [-> | ->]];
    first [ split; [reflexivity|]; by eapply unique_id_key_inj_root
          | exfalso; unfold unique_id_key in Hkey; simpl in Hkey;
            discriminate Hkey ].
Qed.

(** X10.  The store keys of the three scopes never collide: the keys of
    two different scopes, or of one scope with two different roots, are
    different, so the rendezvous of one communicator cannot publish over or
    be served by the identifier of another. *)
Theorem unique_id_key_separate (p : Process) (comm_type comm_type' : string)
    (root root' : Z) (idstr : string) :
  comm_type ∈ ["bagua_inter_comm"; "bagua_intra_comm"; "bagua_global_comm"] ->
  comm_type' ∈ ["bagua_inter_comm"; "bagua_intra_comm"; "bagua_global_comm"] ->
  comm_type <> comm_type' \/ root <> root' ->
  unique_id_key comm_type root <> unique_id_key comm_type' root' /\
  default_store (fst (store_set (unique_id_key comm_type root) idstr p))
    !! unique_id_key comm_type' root'
  = default_store p !! unique_id_key comm_type' root'.
Proof.
  intros H H' Hne.
  assert (unique_id_key comm_type root <> unique_id_key comm_type' root')
    as Hkey.
  { intros Hkey. destruct (unique_id_key_inj _ _ _ _ H H' Hkey) as [-> ->].
    by destruct Hne. }
  split; [done|]. simpl. by rewrite lookup_insert_ne.
Qed.
End RendezvousMore.

Section RendezvousExamples.
Import Comm.
Local Open Scope Z_scope.

Lemma rendezvous_agreement_witness :
  snd (gen_nccl_unique_id "bagua_inter_comm" 0 None rank1_after_rank0)
  = Ok "nccl-id-0-0".
Proof.
  destruct (rendezvous_agreement rank0_of_8 rank1_after_rank0
              "bagua_inter_comm" 0 None None (fun _ => eq_refl)
              (fun _ => eq_refl) eq_refl ltac:(discriminate)
              eq_refl) as (H1 & H2 & _).
  rewrite H1, H2. reflexivity.
Defined.

Lemma unique_id_key_separate_witness :
  unique_id_key "bagua_intra_comm" 0 <> unique_id_key "bagua_intra_comm" 4 /\
  unique_id_key "bagua_inter_comm" 0 <> unique_id_key "bagua_global_comm" 0.
Proof.
  split.
  - apply (unique_id_key_separate rank0_of_8 "bagua_intra_comm"
             "bagua_intra_comm" 0 4 "").
    + apply list_elem_of_further, list_elem_of_here.
    + apply list_elem_of_further, list_elem_of_here.
    + right. discriminate.
  - apply (unique_id_key_separate rank0_of_8 "bagua_inter_comm"
             "bagua_global_comm" 0 0 "").
    + apply list_elem_of_here.
    + do 2 apply list_elem_of_further. apply list_elem_of_here.
    + left. discriminate.
Defined.
End RendezvousExamples.

Section InitMore.
Import Comm.
Context {elem : Type}.
Abbreviation Process := (@Process elem).
Local Open Scope Z_scope.

Lemma rendezvous_ready_frame (p p' : Process) (comm_type : string) (root : Z) :
  init_frame p p' -> rendezvous_ready p comm_type root ->
  rendezvous_ready p' comm_type root.
Proof.
  intros (Henv & _ & _ & _ & _ & _ & _ & _ & Hstore) [Hr|Hs].
  - left. by rewrite Henv.
  - right. by apply Hstore.
Qed.

Lemma builds_frame (p p' : Process) (rank nranks : Z) :
  comm_new p' = comm_new p -> builds p rank nranks -> builds p' rank nranks.
Proof. intros Hnew Hb device_id stream idstr. rewrite Hnew. apply Hb. Qed.

Lemma before_global_state_frame (p : Process) :
  env (before_global_state p) = env p /\
  _global_state (before_global_state p) = _global_state p /\
  default_store (before_global_state p) = default_store p /\
  tensors (before_global_state p) = tensors p /\
  storages (before_global_state p) = storages p /\
  comm_new (before_global_state p) = comm_new p /\
  dist_initialized (before_global_state p) = true /\
  (RANK (env p) = 0 -> is_Some (_autotune_server (before_global_state p))).
Proof.
  unfold before_global_state.
  destruct (dist_initialized p) eqn:Hd; simpl;
    destruct (Z.eqb_spec (RANK (env p)) 0); simpl;
    repeat split; try done; by eexists.
Qed.

(** The first statements of [init_process_group], up to the construction
    of the global state. *)
Lemma init_process_group_unfold (p : Process) :
  _global_state p = None ->
  init_process_group p
  = match BaguaGlobalState_init (Some DefaultStore) None
            (before_global_state p) with
    | (p', Ok gs) => (with_global_state (Some gs) p', Ok tt)
    | (p', Raise e) => (p', Raise e)
    | (p', Blocked k) => (p', Blocked k)
    end.
Proof.
  intros Hn. unfold init_process_group, is_initialized.
  unfold bind at 1, gets at 1.
  rewrite bool_decide_eq_false_2 by (rewrite Hn; by intros [? ?]).
  unfold before_global_state, _get_default_store, bind, gets, get_rank,
    get_world_size, get_default_bucket_size, get_bagua_service_port, ret,
    raise, modify, emit.
  destruct (dist_initialized p) eqn:Hd; simpl; rewrite ?Hd; simpl;
    destruct (RANK (env p) =? 0); simpl;
    by destruct (BaguaGlobalState_init _ _ _) as [? [?| |]].
Qed.

Lemma BaguaGlobalState_init_ready (p : Process) (store : option StoreRef) :
  dist_initialized p = true ->
  LOCAL_SIZE (env p) <> 0 ->
  rendezvous_ready p "bagua_inter_comm" 0 ->
  rendezvous_ready p "bagua_intra_comm"
    (RANK (env p) / LOCAL_SIZE (env p) * LOCAL_SIZE (env p)) ->
  rendezvous_ready p "bagua_global_comm" 0 ->
  (RANK (env p) mod LOCAL_SIZE (env p) = 0 ->
   builds p (RANK (env p) / LOCAL_SIZE (env p))
     (WORLD_SIZE (env p) / LOCAL_SIZE (env p))) ->
  builds p (RANK (env p) mod LOCAL_SIZE (env p)) (LOCAL_SIZE (env p)) ->
  builds p (RANK (env p)) (WORLD_SIZE (env p)) ->
  exists p' gs,
    BaguaGlobalState_init store None p = (p', Ok gs) /\
    option_map rank_size (internode_communicator gs)
    = (if RANK (env p) mod LOCAL_SIZE (env p) =? 0
       then Some (RANK (env p) / LOCAL_SIZE (env p),
                  WORLD_SIZE (env p) / LOCAL_SIZE (env p))
       else None) /\
    rank_size (intranode_communicator gs)
    = (RANK (env p) mod LOCAL_SIZE (env p), LOCAL_SIZE (env p)) /\
    rank_size (global_communicator gs) = (RANK (env p), WORLD_SIZE (env p)).
Proof.
  intros Hd HL Hinter Hintra Hglobal Hb1 Hb2 Hb3.
  unfold BaguaGlobalState_init.
  rewrite (bind_Ok _ _ _ _ _ (device_id_or_local_rank_Ok p None)).
  unfold bind at 1 2, get_master_addr, get_bagua_service_port, gets.
  destruct (init_bagua_inter_communicator_ready p (mkStream (-1)) 0 store
              (Some (default (LOCAL_RANK (env p)) None)) Hd HL Hinter)
    as (p1 & r1 & H1 & Hsome & Hnone).
  assert (exists oc, r1 = Ok oc /\
            option_map rank_size oc
            = (if RANK (env p) mod LOCAL_SIZE (env p) =? 0
               then Some (RANK (env p) / LOCAL_SIZE (env p),
                          WORLD_SIZE (env p) / LOCAL_SIZE (env p))
               else None)) as (oc & -> & Hoc).
  { destruct (Z.eqb_spec (RANK (env p) mod LOCAL_SIZE (env p)) 0) as [Hm|Hm].
    - destruct (Hsome Hm (Hb1 Hm)) as (c & -> & Hrc & Hnc).
      exists (Some c). split; [done|]. simpl. unfold rank_size. congruence.
    - rewrite (Hnone Hm). by exists None. }
  rewrite (bind_Ok _ _ _ _ _ H1).
  pose proof (init_frame_inter _ _ _ _ _ _ _ H1) as F1.
  pose proof F1 as (E1 & _ & _ & D1 & _ & _ & N1 & _).
  destruct (init_bagua_intra_communicator_ready p1 (mkStream (-1)) store
              (Some (default (LOCAL_RANK (env p)) None)))
    as (p2 & c2 & H2 & Hr2 & Hn2).
  { by rewrite D1. }
  { by rewrite E1. }
  { rewrite E1. by apply (rendezvous_ready_frame p p1). }
  { rewrite E1. by apply (builds_frame p p1). }
  rewrite (bind_Ok _ _ _ _ _ H2).
  pose proof (init_frame_intra _ _ _ _ _ _ H2) as F2.
  pose proof (init_frame_trans _ _ _ F1 F2) as F12.
  pose proof F12 as (E2 & _ & _ & D2 & _ & _ & N2 & _).
  destruct (init_bagua_communicator_ready p2 (mkStream (-1)) store
              (Some (default (LOCAL_RANK (env p)) None)))
    as (p3 & c3 & H3 & Hr3 & Hn3).
  { by rewrite D2. }
  { by apply (rendezvous_ready_frame p p2). }
  { rewrite E2. by apply (builds_frame p p2). }
  rewrite (bind_Ok _ _ _ _ _ H3).
  eexists _, _. split; [reflexivity|]. simpl.
  rewrite E1 in Hr2, Hn2. rewrite E2 in Hr3, Hn3.
  split; [exact Hoc|]. split; unfold rank_size; congruence.
Qed.

(** X11.  On a process that is not yet initialized, whose local size is
    not zero, whose three rendezvous can complete and whose communicators
    the transport library builds, [init_process_group] returns normally and
    leaves a global state whose inter-node communicator is (R div L, W div
    L) when R mod L is 0 and absent otherwise, whose intra-node communicator
    is (R mod L, L) and whose global communicator is (R, W); afterwards a
    collective called without communicator resolves to that global
    communicator. *)
Theorem init_process_group_topology (p : Process) :
  _global_state p = None ->
  LOCAL_SIZE (env p) <> 0 ->
  rendezvous_ready p "bagua_inter_comm" 0 ->
  rendezvous_ready p "bagua_intra_comm"
    (RANK (env p) / LOCAL_SIZE (env p) * LOCAL_SIZE (env p)) ->
  rendezvous_ready p "bagua_global_comm" 0 ->
  (RANK (env p) mod LOCAL_SIZE (env p) = 0 ->
   builds p (RANK (env p) / LOCAL_SIZE (env p))
     (WORLD_SIZE (env p) / LOCAL_SIZE (env p))) ->
  builds p (RANK (env p) mod LOCAL_SIZE (env p)) (LOCAL_SIZE (env p)) ->
  builds p (RANK (env p)) (WORLD_SIZE (env p)) ->
  exists p',
    init_process_group p = (p', Ok tt) /\
    topology_of p'
    = Some (if RANK (env p) mod LOCAL_SIZE (env p) =? 0
            then Some (RANK (env p) / LOCAL_SIZE (env p),
                       WORLD_SIZE (env p) / LOCAL_SIZE (env p))
            else None,
            (RANK (env p) mod LOCAL_SIZE (env p), LOCAL_SIZE (env p)),
            (RANK (env p), WORLD_SIZE (env p))) /\
    exists c, resolve_comm None p' = (p', Ok c) /\
              rank_size c = (RANK (env p), WORLD_SIZE (env p)).
Proof.
  intros Hn HL Hinter Hintra Hglobal Hb1 Hb2 Hb3.
  destruct (before_global_state_frame p)
    as (Henv & Hgs & Hstore & _ & _ & Hnew & Hdist & _).
  destruct (BaguaGlobalState_init_ready (before_global_state p)
              (Some DefaultStore)) as (p' & gs & Hinit & H1 & H2 & H3).
  { exact Hdist. }
  { by rewrite Henv. }
  { destruct Hinter as [?|?]; [left|right]; by rewrite ?Henv, ?Hstore. }
  { rewrite Henv. destruct Hintra as [?|?]; [left|right];
      by rewrite ?Henv, ?Hstore. }
  { destruct Hglobal as [?|?]; [left|right]; by rewrite ?Henv, ?Hstore. }
  { rewrite Henv. intros Hm. by apply (builds_frame p), Hb1. }
  { rewrite Henv. by apply (builds_frame p). }
  { rewrite Henv. by apply (builds_frame p). }
  rewrite Henv in H1, H2, H3.
  exists (with_global_state (Some gs) p').
  rewrite (init_process_group_unfold p Hn), Hinit.
  split; [done|]. split.
  - unfold topology_of. simpl. by rewrite H1, H2, H3.
  - exists (global_communicator gs). by split.
Qed.

(** X12.  However a call of [init_process_group] on an uninitialized
    process ends, [torch.distributed] is initialized afterwards and, on
    rank 0, the autotune server has been started; the process is
    initialized afterwards exactly when the call returned normally, so a
    call that raised or is still waiting can be repeated.  The environment,
    the tensors and their storages are never touched. *)
Theorem init_process_group_outcome (p p' : Process) (r : result unit) :
  _global_state p = None ->
  init_process_group p = (p', r) ->
  (is_Some (_global_state p') <-> r = Ok tt) /\
  dist_initialized p' = true /\
  (RANK (env p) = 0 -> is_Some (_autotune_server p')) /\
  env p' = env p /\
  tensors p' = tensors p /\
  storages p' = storages p.
Proof.
  intros Hn. rewrite (init_process_group_unfold p Hn).
  destruct (before_global_state_frame p)
    as (Henv & Hgs & Hstore & Htensors & Hstorages & Hnew & Hdist & Hserver).
  destruct (BaguaGlobalState_init (Some DefaultStore) None
              (before_global_state p)) as [p1 r1] eqn:Hinit.
  pose proof (init_frame_BaguaGlobalState_init _ _ _ _ _ Hinit)
    as (E1 & E2 & E3 & E4 & E5 & E6 & _).
  destruct r1 as [gs|e|k]; intros [= <- <-]; simpl;
    rewrite ?E1, ?E2, ?E3, ?E4, ?E5, ?E6, ?Henv, ?Hgs, ?Htensors,
      ?Hstorages, ?Hn;
    (split; [|split; [done|split; [|done]]]).
  - split; [done|]. by eexists.
  - intros H0. by apply Hserver.
  - split; [by intros [? ?]|done].
  - intros H0. by apply Hserver.
  - split; [by intros [? ?]|done].
  - intros H0. by apply Hserver.
Qed.

(** X13.  With a local size of zero the intra-node constructor raises
    [ZeroDivisionError] before it touches the store, while the inter-node
    constructor, given a store or called after [torch.distributed] has been
    initialized, raises it only after its rendezvous: the identifier has
    been published or fetched by then. *)
Theorem communicators_local_size_zero (p : Process) (stream : Stream)
    (leader_rank : Z) (store : option StoreRef) (device_id : option Z) :
  LOCAL_SIZE (env p) = 0 ->
  init_bagua_intra_communicator stream store device_id p
  = (p, Raise ZeroDivisionError) /\
  ((store = None -> dist_initialized p = true) ->
   rendezvous_ready p "bagua_inter_comm" leader_rank ->
   exists p',
     init_bagua_inter_communicator stream leader_rank store device_id p
     = (p', Raise ZeroDivisionError) /\
     is_Some (default_store p'
                !! unique_id_key "bagua_inter_comm" leader_rank) /\
     trace p' <> trace p).
Proof.
  intros HL. split.
  - unfold init_bagua_intra_communicator.
    rewrite (bind_Ok _ _ _ _ _ (device_id_or_local_rank_Ok p device_id)).
    unfold bind, get_rank, get_local_size, gets, lift, py_floordiv.
    by rewrite HL.
  - intros Hd Hready. unfold init_bagua_inter_communicator.
    rewrite (bind_Ok _ _ _ _ _ (device_id_or_local_rank_Ok p device_id)).
    destruct (decide (RANK (env p) = leader_rank)) as [Hr|Hr].
    + rewrite (bind_Ok _ _ _ _ _
                 (gen_nccl_unique_id_root p "bagua_inter_comm" leader_rank
                    store Hd Hr)).
      unfold bind, get_rank, get_local_size, gets, lift, py_mod. simpl.
      rewrite HL. simpl. eexists. split; [done|]. simpl.
      split; [rewrite lookup_insert_eq; by eexists|].
      intros H. apply (f_equal length) in H. rewrite !length_app in H.
      simpl in H. lia.
    + destruct Hready as [?|[idstr Hs]]; [done|].
      rewrite (bind_Ok _ _ _ _ _
                 (gen_nccl_unique_id_fetch p "bagua_inter_comm" leader_rank
                    store idstr Hd Hr Hs)).
      unfold bind, get_rank, get_local_size, gets, lift, py_mod. simpl.
      rewrite HL. simpl. eexists. split; [done|]. simpl.
      split; [by eexists|].
      intros H. apply (f_equal length) in H. rewrite !length_app in H.
      simpl in H. lia.
Qed.
End InitMore.

Section InitExamples.
Import Comm.
Local Open Scope Z_scope.

Lemma init_process_group_topology_witness :
  exists p',
    init_process_group rank4_of_8 = (p', Ok tt) /\
    topology_of p' = Some (Some (1, 2), (0, 4), (4, 8)).
Proof.
  destruct (init_process_group_topology rank4_of_8 eq_refl
              ltac:(discriminate))
    as (p' & Hinit & Htop & _).
  - right. by eexists.
  - by left.
  - right. by eexists.
  - intros _ ? ? ?. reflexivity.
  - intros ? ? ?. reflexivity.
  - intros ? ? ?. reflexivity.
  - by exists p'.
Defined.

Lemma init_process_group_outcome_witness :
  snd (init_process_group rank1_of_8) = Blocked "bagua_inter_comm-0-unique_id"
  /\ _global_state (fst (init_process_group rank1_of_8)) = None
  /\ dist_initialized (fst (init_process_group rank1_of_8)) = true.
Proof.
  destruct (init_process_group_outcome rank1_of_8
              (fst (init_process_group rank1_of_8))
              (Blocked "bagua_inter_comm-0-unique_id") eq_refl)
    as (Hiff & Hdist & _).
  { vm_compute. reflexivity. }
  split; [vm_compute; reflexivity|]. split; [|exact Hdist].
  destruct (_global_state (fst (init_process_group rank1_of_8))) eqn:Hg;
    [|reflexivity].
  assert (is_Some (Some b)) as Hs by (by eexists).
  apply Hiff in Hs. discriminate Hs.
Defined.

Lemma communicators_local_size_zero_witness :
  init_bagua_intra_communicator (mkStream (-1)) None None rank0_no_local_size
  = (rank0_no_local_size, Raise ZeroDivisionError) /\
  exists p',
    init_bagua_inter_communicator (mkStream (-1)) 0 None None
      rank0_no_local_size = (p', Raise ZeroDivisionError) /\
    default_store p' !! "bagua_inter_comm-0-unique_id" = Some "nccl-id-0-0".
Proof.
  destruct (communicators_local_size_zero rank0_no_local_size (mkStream (-1))
              0 None None eq_refl) as [Hintra Hinter].
  split; [exact Hintra|].
  destruct (Hinter (fun _ => eq_refl) (or_introl eq_refl))
    as (p' & Hrun & _ & _).
  exists p'. split; [exact Hrun|].
  assert (p' = fst (init_bagua_inter_communicator (mkStream (-1)) 0 None None
                      rank0_no_local_size)) as -> by (by rewrite Hrun).
  reflexivity.
Defined.
End InitExamples.
(** * Further properties of the collectives *)

Section CollectiveFrame.
Import Comm.
Context {elem : Type} (floating : bool) (true_divide : elem -> Z -> elem).
Abbreviation Process := (@Process elem).
Abbreviation M := (@M elem).
















End CollectiveFrame.

Section BroadcastFacts.
Import Comm.
Context {elem : Type} (esum : list elem -> elem).
Abbreviation Process := (@Process elem).


End BroadcastFacts.

Section BroadcastExamples.
Import Comm.
Local Open Scope Z_scope.

End BroadcastExamples.

(** ** The launcher *)

Section LaunchFacts.
Import Launch.
Local Open Scope Z_scope.

Lemma build_cmd_conflict (args : Args) (host : Host) (k : Z) :
  no_python args = true -> module args = true ->
  build_cmd args host k =
    ValueError
      "Don't use both the '--no_python' flag and the '--module' flag at the same time.".
Proof. intros Hn Hm. unfold build_cmd. rewrite Hn, Hm. reflexivity. Qed.

Lemma build_cmd_done (args : Args) (host : Host) (k : Z) :
  no_python args && module args = false ->
  exists c, build_cmd args host k = Done c.
Proof.
  intros H. unfold build_cmd.
  destruct (no_python args), (module args); simpl in *; try discriminate;
    eexists; reflexivity.
Qed.

Lemma build_cmd_ValueError (args : Args) (host : Host) (k : Z) (msg : string) :
  build_cmd args host k = ValueError msg ->
  no_python args = true /\ module args = true /\
  msg = "Don't use both the '--no_python' flag and the '--module' flag at the same time.".
Proof.
  unfold build_cmd.
  destruct (no_python args), (module args); simpl; intros H;
    try discriminate.
  injection H as <-. auto.
Qed.

(** The loop: what it appends to [processes] when it runs through. *)
Lemma spawn_loop_Done (args : Args) (host : Host) (local_ranks : list Z) :
  forall (current_env : gmap string string) (processes r : list Spawn),
  spawn_loop args host local_ranks current_env processes = Done r ->
  exists news,
    r = processes ++ news /\
    length news = length local_ranks /\
    forall (i : nat) (k : Z) (s : Spawn),
      local_ranks !! i = Some k -> news !! i = Some s ->
      spawn_env s !! "RANK" = Some (pretty (dist_rank args k)) /\
      spawn_env s !! "LOCAL_RANK" = Some (pretty k) /\
      spawn_env s !! "LOCAL_SIZE" = Some (pretty (nproc_per_node args)) /\
      (forall key, key <> "RANK" -> key <> "LOCAL_RANK" ->
         key <> "LOCAL_SIZE" -> spawn_env s !! key = current_env !! key).
Proof.
  induction local_ranks as [|k0 rest IH]; intros current_env processes r.
  - simpl. intros [= <-]. exists []. rewrite app_nil_r.
    split; [reflexivity|]. split; [reflexivity|].
    intros i k s Hk. discriminate.
  - simpl. destruct (build_cmd args host k0) as [c|msg]; [|discriminate].
    intros Hrun. apply IH in Hrun as (news & -> & Hlen & Hnews).
    eexists (_ :: news). split; [rewrite <- app_assoc; reflexivity|].
    split; [simpl; congruence|].
    intros [|i] k s Hk Hs; simpl in Hk, Hs.
    + injection Hk as <-. injection Hs as <-. simpl.
      split; [|split; [|split]].
      * rewrite lookup_insert_ne by discriminate.
        rewrite lookup_insert_ne by discriminate.
        apply lookup_insert_eq.
      * rewrite lookup_insert_ne by discriminate.
        apply lookup_insert_eq.
      * apply lookup_insert_eq.
      * intros key H1 H2 H3.
        rewrite !lookup_insert_ne by congruence. reflexivity.
    + destruct (Hnews i k s Hk Hs) as (H1 & H2 & H3 & H4).
      split; [exact H1|]. split; [exact H2|]. split; [exact H3|].
      intros key K1 K2 K3. rewrite (H4 key K1 K2 K3).
      rewrite !lookup_insert_ne by congruence. reflexivity.
Qed.

Lemma spawn_loop_ValueError (args : Args) (host : Host) (local_ranks : list Z) :
  forall (current_env : gmap string string) (processes : list Spawn)
         (msg : string),
  spawn_loop args host local_ranks current_env processes = ValueError msg ->
  local_ranks <> [] /\ no_python args = true /\ module args = true /\
  msg = "Don't use both the '--no_python' flag and the '--module' flag at the same time.".
Proof.
  induction local_ranks as [|k0 rest IH]; intros current_env processes msg.
  - discriminate.
  - simpl. destruct (build_cmd args host k0) as [c|m] eqn:Hc.
    + intros Hrun. apply IH in Hrun as (_ & H). split; [discriminate|exact H].
    + intros [= <-]. split; [discriminate|].
      exact (build_cmd_ValueError _ _ _ _ Hc).
Qed.

Lemma spawn_loop_conflict (args : Args) (host : Host) (local_ranks : list Z)
    (current_env : gmap string string) (processes : list Spawn) :
  local_ranks <> [] -> no_python args = true -> module args = true ->
  spawn_loop args host local_ranks current_env processes =
    ValueError
      "Don't use both the '--no_python' flag and the '--module' flag at the same time.".
Proof.
  intros Hne Hn Hm. destruct local_ranks as [|k0 rest]; [congruence|].
  simpl. rewrite (build_cmd_conflict _ _ _ Hn Hm). reflexivity.
Qed.

Lemma spawn_loop_runs (args : Args) (host : Host) (local_ranks : list Z) :
  no_python args && module args = false ->
  forall (current_env : gmap string string) (processes : list Spawn),
  exists r, spawn_loop args host local_ranks current_env processes = Done r.
Proof.
  intros H. induction local_ranks as [|k0 rest IH]; intros current_env processes.
  - eexists; reflexivity.
  - simpl. destruct (build_cmd_done args host k0 H) as [c ->]. apply IH.
Qed.

(** The variables [main] sets before the loop. *)
Lemma base_env_lookup (args : Args) (host : Host) :
  base_env args host !! "MASTER_ADDR" = Some (master_addr args) /\
  base_env args host !! "MASTER_PORT" = Some (pretty (master_port args)) /\
  base_env args host !! "WORLD_SIZE"
    = Some (pretty (nproc_per_node args * nnodes args)) /\
  base_env args host !! "BAGUA_SERVICE_PORT"
    = Some (pretty (bagua_service_port args)) /\
  base_env args host !! "BAGUA_DEFAULT_BUCKET_SIZE"
    = Some (pretty (default_bucket_size args)) /\
  base_env args host !! "BAGUA_AUTOTUNE" = Some (pretty (autotune_level args)).
Proof.
  unfold base_env, set_bagua_env.
  destruct (bool_decide _ && _);
    repeat split;
    repeat first [ apply lookup_insert_eq
                 | rewrite lookup_insert_ne by discriminate ].
Qed.

Lemma base_env_inherited (args : Args) (host : Host) (key : string) :
  key ∉ launch_variables ->
  base_env args host !! key = environ host !! key.
Proof.
  intros Hkey. unfold launch_variables in Hkey.
  rewrite !not_elem_of_cons in Hkey.
  destruct Hkey as (K1 & K2 & K3 & K4 & K5 & K6 & K7 & _).
  unfold base_env, set_bagua_env.
  destruct (bool_decide _ && _);
    rewrite !lookup_insert_ne by congruence; reflexivity.
Qed.

Lemma base_env_OMP (args : Args) (host : Host) :
  base_env args host !! "OMP_NUM_THREADS" =
    match environ host !! "OMP_NUM_THREADS" with
    | Some v => Some v
    | None => if 1 <? nproc_per_node args then Some "1" else None
    end.
Proof.
  unfold base_env, set_bagua_env.
  destruct (environ host !! "OMP_NUM_THREADS") as [v|] eqn:Hv.
  - rewrite bool_decide_eq_false_2 by discriminate. simpl.
    rewrite !lookup_insert_ne by discriminate. exact Hv.
  - rewrite bool_decide_eq_true_2 by reflexivity. simpl.
    destruct (1 <? nproc_per_node args).
    + apply lookup_insert_eq.
    + rewrite !lookup_insert_ne by discriminate. exact Hv.
Qed.

(** [main] runs through: the loop has run on [range(0, nproc_per_node)]. *)
Lemma main_Done (args : Args) (host : Host) (r : Launched) :
  main args host = Done r ->
  spawn_loop args host (seqZ 0 (nproc_per_node args)) (base_env args host) []
    = Done (spawned r).
Proof.
  unfold main.
  destruct (if logdir_given args then _ else _) as [made|msg]; [|discriminate].
  destruct (spawn_loop _ _ _ _ _) as [ps|msg]; [|discriminate].
  intros [= <-]. reflexivity.
Qed.

Lemma main_spawned (args : Args) (host : Host) (r : Launched) :
  main args host = Done r ->
  length (spawned r) = Z.to_nat (nproc_per_node args) /\
  forall (k : nat) (s : Spawn),
    spawned r !! k = Some s ->
    0 <= Z.of_nat k < nproc_per_node args /\
    spawn_env s !! "RANK" = Some (pretty (dist_rank args (Z.of_nat k))) /\
    spawn_env s !! "LOCAL_RANK" = Some (pretty (Z.of_nat k)) /\
    spawn_env s !! "LOCAL_SIZE" = Some (pretty (nproc_per_node args)) /\
    (forall key, key <> "RANK" -> key <> "LOCAL_RANK" ->
       key <> "LOCAL_SIZE" -> spawn_env s !! key = base_env args host !! key).
Proof.
  intros Hmain. apply main_Done in Hmain.
  apply spawn_loop_Done in Hmain as (news & Hr & Hlen & Hnews).
  simpl in Hr. subst news. rewrite length_seqZ in Hlen.
  split; [exact Hlen|].
  intros k s Hs.
  assert (Hk : (k < Z.to_nat (nproc_per_node args))%nat).
  { rewrite <- Hlen. apply lookup_lt_is_Some. eauto. }
  assert (Hseq : seqZ 0 (nproc_per_node args) !! k = Some (Z.of_nat k)).
  { rewrite lookup_seqZ. split; lia. }
  split; [lia|]. exact (Hnews k (Z.of_nat k) s Hseq Hs).
Qed.

(** X16. A launch that gets as far as waiting has started exactly
    [nproc_per_node] subprocesses (none when that number is zero or
    negative), in the order of their local ranks.  The [k]-th one is given
    [RANK = nproc_per_node * node_rank + k], [LOCAL_RANK = k],
    [LOCAL_SIZE = nproc_per_node], [WORLD_SIZE = nproc_per_node * nnodes],
    the master address and port and the three [BAGUA_] variables of the
    options; and these numbers are consistent: the rank modulo the local
    size is the local rank, the rank floor-divided by the local size is the
    node rank, and the local size divides the world size, the quotient being
    the number of nodes. *)
Theorem launch_rank_assignment (args : Args) (host : Host) (r : Launched) :
  main args host = Done r ->
  length (spawned r) = Z.to_nat (nproc_per_node args) /\
  forall (k : nat) (s : Spawn),
    spawned r !! k = Some s ->
    let rank := nproc_per_node args * node_rank args + Z.of_nat k in
    let world_size := nproc_per_node args * nnodes args in
    let local_size := nproc_per_node args in
    spawn_env s !! "RANK" = Some (pretty rank) /\
    spawn_env s !! "LOCAL_RANK" = Some (pretty (Z.of_nat k)) /\
    spawn_env s !! "LOCAL_SIZE" = Some (pretty local_size) /\
    spawn_env s !! "WORLD_SIZE" = Some (pretty world_size) /\
    spawn_env s !! "MASTER_ADDR" = Some (master_addr args) /\
    spawn_env s !! "MASTER_PORT" = Some (pretty (master_port args)) /\
    spawn_env s !! "BAGUA_SERVICE_PORT"
      = Some (pretty (bagua_service_port args)) /\
    spawn_env s !! "BAGUA_DEFAULT_BUCKET_SIZE"
      = Some (pretty (default_bucket_size args)) /\
    spawn_env s !! "BAGUA_AUTOTUNE" = Some (pretty (autotune_level args)) /\
    rank mod local_size = Z.of_nat k /\
    rank / local_size = node_rank args /\
    world_size mod local_size = 0 /\
    world_size / local_size = nnodes args.
Proof.
  intros Hmain. destruct (main_spawned _ _ _ Hmain) as [Hlen Hall].
  split; [exact Hlen|].
  intros k s Hs rank world_size local_size.
  destruct (Hall k s Hs) as (Hk & HR & HLR & HLS & Hrest).
  destruct (base_env_lookup args host) as (B1 & B2 & B3 & B4 & B5 & B6).
  split; [exact HR|]. split; [exact HLR|]. split; [exact HLS|].
  rewrite !Hrest by discriminate.
  split; [exact B3|]. split; [exact B1|]. split; [exact B2|].
  split; [exact B4|]. split; [exact B5|]. split; [exact B6|].
  subst rank world_size local_size.
  assert (Hn : 0 < nproc_per_node args) by lia.
  split.
  { rewrite Z.add_comm, Z.mul_comm, Z_mod_plus_full.
    apply Z.mod_small. lia. }
  split.
  { rewrite Z.add_comm, Z.mul_comm, Z_div_plus_full by lia.
    rewrite Z.div_small by lia. lia. }
  split.
  { rewrite Z.mul_comm. apply Z_mod_mult. }
  { rewrite Z.mul_comm. apply Z_div_mult_full. lia. }
Qed.

(** X17. [main] raises [ValueError] in two cases only.  With a non-empty
    [--logdir] that exists and is no directory it raises before it starts
    any process.  Otherwise it raises when [--no_python] and [--module] are
    both given and at least one process is to be started: the conflict of
    the two flags is looked at inside the loop, so with [nproc_per_node] zero
    or negative it goes unnoticed. *)
Theorem launch_ValueError (args : Args) (host : Host) (msg : string) :
  main args host = ValueError msg <->
  (logdir_given args = true /\ logdir_exists host = true /\
   logdir_isdir host = false /\
   msg = "argument --logdir must be a path to a directory.") \/
  (logdir_given args && logdir_exists host && negb (logdir_isdir host) = false /\
   no_python args = true /\ module args = true /\
   0 < nproc_per_node args /\
   msg = "Don't use both the '--no_python' flag and the '--module' flag at the same time.").
Proof.
  unfold main. split.
  - destruct (logdir_given args), (logdir_exists host), (logdir_isdir host);
      simpl;
      try (intros [= <-]; left; repeat split; reflexivity);
      (destruct (spawn_loop _ _ _ _ _) as [ps|m] eqn:Hloop; [discriminate|];
       intros [= <-]; right;
       apply spawn_loop_ValueError in Hloop as (Hne & Hn & Hm & ->);
       split; [reflexivity|]; split; [exact Hn|]; split; [exact Hm|];
       split; [|reflexivity];
       destruct (Z_lt_le_dec 0 (nproc_per_node args)) as [?|Hle]; [assumption|];
       exfalso; apply Hne; apply seqZ_nil; exact Hle).
  - intros [(Hg & He & Hd & ->)|(Hlog & Hn & Hm & Hpos & ->)].
    + rewrite Hg, He, Hd. reflexivity.
    + assert (Hne : seqZ 0 (nproc_per_node args) <> []).
      { intros Hnil. apply (f_equal length) in Hnil.
        rewrite length_seqZ in Hnil. simpl in Hnil. lia. }
      rewrite (spawn_loop_conflict args host _ (base_env args host) []
                 Hne Hn Hm).
      destruct (logdir_given args), (logdir_exists host), (logdir_isdir host);
        simpl in *; try discriminate; reflexivity.
Qed.

(** X18. Every subprocess inherits the launcher's own environment: a
    variable that is none of the ten the launcher writes reaches the
    subprocess as it is in [os.environ] (set to the same value, or unset).
    [OMP_NUM_THREADS] set by the user is never overridden; unset, it becomes
    [1] when more than one process per node is started and stays unset for a
    single process. *)
Theorem launch_env_inherited (args : Args) (host : Host) (r : Launched)
    (s : Spawn) :
  main args host = Done r ->
  s ∈ spawned r ->
  (forall key, key ∉ launch_variables ->
     spawn_env s !! key = environ host !! key) /\
  spawn_env s !! "OMP_NUM_THREADS" =
    match environ host !! "OMP_NUM_THREADS" with
    | Some v => Some v
    | None => if 1 <? nproc_per_node args then Some "1" else None
    end.
Proof.
  intros Hmain Hs. apply list_elem_of_lookup in Hs as [k Hs].
  destruct (main_spawned _ _ _ Hmain) as [_ Hall].
  destruct (Hall k s Hs) as (_ & _ & _ & _ & Hrest).
  split.
  - intros key Hkey. pose proof Hkey as Hkey'.
    unfold launch_variables in Hkey'. rewrite !not_elem_of_cons in Hkey'.
    destruct Hkey' as (_ & _ & _ & _ & _ & _ & _ & K8 & K9 & K10 & _).
    rewrite (Hrest key K8 K9 K10). apply base_env_inherited. exact Hkey.
  - rewrite Hrest by discriminate. apply base_env_OMP.
Qed.

(** X19. No two subprocesses of a job get the same [RANK]: two launchers
    with the same [--nproc_per_node] give different ranks to their
    subprocesses when their node ranks differ, and one launcher gives
    different ranks to its own subprocesses. *)
Theorem launch_ranks_distinct (a b : Args) (ha hb : Host) (ra rb : Launched)
    (i j : nat) (sa sb : Spawn) :
  main a ha = Done ra ->
  main b hb = Done rb ->
  nproc_per_node a = nproc_per_node b ->
  spawned ra !! i = Some sa ->
  spawned rb !! j = Some sb ->
  node_rank a <> node_rank b \/ i <> j ->
  spawn_env sa !! "RANK" <> spawn_env sb !! "RANK".
Proof.
  intros Ha Hb Hn Hsa Hsb Hdiff.
  destruct (main_spawned _ _ _ Ha) as [_ Halla].
  destruct (main_spawned _ _ _ Hb) as [_ Hallb].
  destruct (Halla i sa Hsa) as (Hi & -> & _).
  destruct (Hallb j sb Hsb) as (Hj & -> & _).
  intros [= Heq]. apply (inj pretty) in Heq.
  unfold dist_rank in Heq. rewrite <- Hn in Heq, Hj.
  assert (Hnode : node_rank a = node_rank b) by nia.
  destruct Hdiff as [Hd|Hd]; [exact (Hd Hnode)|].
  apply Hd. rewrite Hnode in Heq. lia.
Qed.

(** X20. The launchers of a job cover its ranks: when the launcher runs
    through on one node and starts at least one process there, every rank
    from 0 up to the world size [nproc_per_node * nnodes] is given to a
    subprocess by the launcher started with the same options on one of the
    nodes 0 .. [nnodes - 1]. *)
Theorem launch_ranks_cover (args : Args) (host : Host) (r0 : Launched)
    (rank : Z) :
  main args host = Done r0 ->
  0 < nproc_per_node args ->
  0 <= rank < nproc_per_node args * nnodes args ->
  exists (node : Z) (r : Launched) (s : Spawn),
    0 <= node < nnodes args /\
    main (on_node node args) host = Done r /\
    s ∈ spawned r /\
    spawn_env s !! "RANK" = Some (pretty rank).
Proof.
  intros Hmain Hn Hrank.
  set (n := nproc_per_node args) in *.
  set (node := rank / n).
  assert (Hnode : 0 <= node < nnodes args).
  { subst node. split; [apply Z.div_pos; lia|].
    apply Z.div_lt_upper_bound; lia. }
  assert (Hrun : exists r, main (on_node node args) host = Done r).
  { unfold main in *. 
    change (logdir_given (on_node node args)) with (logdir_given args).
    destruct (if logdir_given args then _ else _) as [made|msg];
      [|discriminate].
    destruct (spawn_loop args _ _ _ _) as [ps|msg] eqn:Hloop; [|discriminate].
    destruct (no_python args && module args) eqn:Hflags.
    - apply andb_true_iff in Hflags as [Hnp Hm].
      rewrite spawn_loop_conflict in Hloop; try assumption; [discriminate|].
      intros Hnil. apply (f_equal length) in Hnil.
      rewrite length_seqZ in Hnil. simpl in Hnil. lia.
    - destruct (spawn_loop_runs (on_node node args) host
                  (seqZ 0 (nproc_per_node (on_node node args))) Hflags
                  (base_env (on_node node args) host) []) as [ps' ->].
      eexists; reflexivity. }
  destruct Hrun as [r Hr].
  destruct (main_spawned _ _ _ Hr) as [Hlen Hall].
  change (nproc_per_node (on_node node args)) with n in Hlen, Hall.
  set (k := Z.to_nat (rank mod n)).
  assert (Hk : 0 <= rank mod n < n) by (apply Z.mod_pos_bound; lia).
  destruct (lookup_lt_is_Some_2 (spawned r) k) as [s Hs].
  { rewrite Hlen. subst k. lia. }
  exists node, r, s. split; [exact Hnode|]. split; [exact Hr|].
  split; [apply list_elem_of_lookup; eauto|].
  destruct (Hall k s Hs) as (_ & -> & _).
  f_equal. f_equal. unfold dist_rank. simpl.
  fold n. subst k node. rewrite Z2Nat.id by lia.
  symmetry. apply Z.div_mod. lia.
Qed.
End LaunchFacts.

Section LaunchExamples.
Import Launch.
Local Open Scope Z_scope.

(** Node 1 of 2 with 4 processes: the third subprocess has rank 6. *)
Lemma launch_rank_assignment_witness :
  exists r s,
    main example_args example_host = Done r /\
    spawned r !! 2%nat = Some s /\
    spawn_env s !! "RANK" = Some "6" /\
    spawn_env s !! "WORLD_SIZE" = Some "8".
Proof.
  destruct (main example_args example_host) as [r|msg] eqn:Hmain;
    [|vm_compute in Hmain; discriminate].
  destruct (launch_rank_assignment example_args example_host r Hmain)
    as [Hlen Hall].
  destruct (lookup_lt_is_Some_2 (spawned r) 2) as [s Hs];
    [rewrite Hlen; vm_compute; lia|].
  destruct (Hall 2%nat s Hs) as (HR & _ & _ & HW & _).
  exists r, s. repeat split; assumption.
Defined.

Lemma launch_env_inherited_witness :
  exists r s,
    main example_args example_host = Done r /\
    spawned r !! 0%nat = Some s /\
    spawn_env s !! "PATH" = Some "/usr/bin" /\
    spawn_env s !! "OMP_NUM_THREADS" = Some "1".
Proof.
  destruct (main example_args example_host) as [r|msg] eqn:Hmain;
    [|vm_compute in Hmain; discriminate].
  destruct (lookup_lt_is_Some_2 (spawned r) 0) as [s Hs].
  { destruct (main_spawned _ _ _ Hmain) as [-> _]. vm_compute. lia. }
  assert (Hin : s ∈ spawned r) by (apply list_elem_of_lookup; eauto).
  destruct (launch_env_inherited example_args example_host r s Hmain Hin)
    as [Hkeep Homp].
  exists r, s.
  split; [reflexivity|]. split; [exact Hs|]. split; [|exact Homp].
  rewrite Hkeep; [reflexivity|].
  unfold launch_variables. rewrite !not_elem_of_cons.
  repeat (split; [discriminate|]). apply not_elem_of_nil.
Defined.

(** Both flags and four processes to start: the launcher raises. *)
Lemma launch_ValueError_witness :
  main conflicting_args example_host =
    ValueError
      "Don't use both the '--no_python' flag and the '--module' flag at the same time.".
Proof.
  apply (proj2 (launch_ValueError conflicting_args example_host _)).
  right. repeat split.
Defined.

(** The third subprocesses of nodes 1 and 0 have different ranks. *)
Lemma launch_ranks_distinct_witness :
  exists ra rb sa sb,
    main example_args example_host = Done ra /\
    main (on_node 0 example_args) example_host = Done rb /\
    spawned ra !! 2%nat = Some sa /\
    spawned rb !! 2%nat = Some sb /\
    spawn_env sa !! "RANK" <> spawn_env sb !! "RANK".
Proof.
  destruct (main example_args example_host) as [ra|msg] eqn:Ha;
    [|vm_compute in Ha; discriminate].
  destruct (main (on_node 0 example_args) example_host) as [rb|msg] eqn:Hb;
    [|vm_compute in Hb; discriminate].
  destruct (lookup_lt_is_Some_2 (spawned ra) 2) as [sa Hsa].
  { destruct (main_spawned _ _ _ Ha) as [-> _]. vm_compute. lia. }
  destruct (lookup_lt_is_Some_2 (spawned rb) 2) as [sb Hsb].
  { destruct (main_spawned _ _ _ Hb) as [-> _]. vm_compute. lia. }
  exists ra, rb, sa, sb.
  split; [reflexivity|]. split; [reflexivity|].
  split; [exact Hsa|]. split; [exact Hsb|].
  apply (launch_ranks_distinct example_args (on_node 0 example_args)
           example_host example_host ra rb 2 2 sa sb Ha Hb eq_refl Hsa Hsb).
  left. discriminate.
Defined.

(** Rank 3 of the job of 8 is started on node 0. *)
Lemma launch_ranks_cover_witness :
  exists node r s,
    0 <= node < 2 /\
    main (on_node node example_args) example_host = Done r /\
    s ∈ spawned r /\
    spawn_env s !! "RANK" = Some "3".
Proof.
  destruct (main example_args example_host) as [r0|msg] eqn:Hmain;
    [|vm_compute in Hmain; discriminate].
  apply (launch_ranks_cover example_args example_host r0 3 Hmain);
    vm_compute; split; congruence.
Defined.
End LaunchExamples.
